(** * Tabula: the persistence layer (database.ts) over a model of IndexedDB

    The development follows [database.ts]: the four record types, the
    CRUD functions of the four object stores, the archive functions, the
    trash functions (restore, sweep, listings) and the two counting
    queries.  The browser's IndexedDB engine is not part of the program;
    module [IDB] and the section on transactions state the rules of the
    engine (Indexed Database API) that decide what the functions do.

    Conventions of the embedding:
    - an object store is a finite map from primary key to record; ids are
      strings, positions are integers, a [Date] is its time value;
    - an async function is a function from the database (and, where the
      source reads the clock, the current time) to the way its promise
      settles and the database left behind;
    - opening the database succeeds ([getDatabase] resolves), so the
      "Failed to connect" branches are not reached. *)

From stdpp Require Import gmap strings list sorting fin_maps.
From Stdlib Require Import ZArith.

Local Open Scope Z_scope.
Local Open Scope string_scope.

(** ** JavaScript values the functions look at *)

(** Results of the async functions: a promise settles one way. *)
Inductive DOMException :=
  | ConstraintError
  | DataError
  | TransactionInactiveError
  | AbortError
  | UnknownError.

(** What a promise is rejected with.  The text of a [DOMException] is
    chosen by the browser, so a message built as
    [`prefix${error.message || 'Unknown error'}`] is kept as its literal
    prefix together with the exception. *)
Inductive JsError :=
  | Error (message : string)
  | ErrorWith (prefix : string) (cause : DOMException)
  | Thrown (cause : DOMException).

Inductive Promise (A : Type) :=
  | Resolved (value : A)
  | Rejected (reason : JsError).
Arguments Resolved {A} value.
Arguments Rejected {A} reason.

Definition is_rejected {A} (p : Promise A) : bool :=
  match p with Rejected _ => true | Resolved _ => false end.

(** Truthiness, as used by [!x], [!!x] and [x || y]: [undefined] is falsy,
    every object and every array (the empty one too) is truthy. *)
Class Truthy (A : Type) := truthy : A → bool.
#[export] Instance truthy_bool : Truthy bool := λ b, b.
#[export] Instance truthy_undefined_or_object {A} : Truthy (option A) :=
  λ o, match o with Some _ => true | None => false end.
#[export] Instance truthy_array {A} : Truthy (list A) := λ _, true.

Definition js_or {A} `{Truthy A} (x y : A) : A := if truthy x then x else y.

(** A [Date] is its time value, in milliseconds. *)
Abbreviation Date := Z (only parsing).

(** ** The engine *)
Module IDB.

(** Values offered to the engine as keys.  A key is a number, a date, a
    string, a binary or an array of keys; converting any other value (a
    boolean, [undefined]) to a key gives "invalid". *)
Inductive KeyCandidate :=
| VString (s : string)
| VNumber (n : Z)
| VDate (d : Z)
| VBoolean (b : bool)
| VUndefined.

#[export] Instance KeyCandidate_eq_dec : EqDecision KeyCandidate.
Proof. solve_decision. Defined.

Definition valid_key (v : KeyCandidate) : bool :=
match v with
| VString _ | VNumber _ | VDate _ => true
| VBoolean _ | VUndefined => false
end.

(** Outcome of one request. *)
Inductive Request (A : Type) :=
| Success (result : A)
| Failure (error : DOMException).
Arguments Success {A} result.
Arguments Failure {A} error.

(** [IDBKeyRange.only(value)] throws [DataError] unless [value] is a key. *)
Definition IDBKeyRange_only (v : KeyCandidate) : Request KeyCandidate :=
if valid_key v then Success v else Failure DataError.

Section ObjectStore.
Context {A : Type}.
(** [keyPath]: the primary key of a record (every store here has
    [keyPath: "id"]).  [unique r1 r2]: the two records have the same
    key in an index declared [unique: true]. *)
Variable keyPath : A → string.
Variable unique : A → A → bool.

(** Records are listed in ascending order of their primary key (strings
    compare code unit by code unit). *)
Definition key_le (a b : string * A) : Prop := String.leb a.1 b.1 = true.

#[local] Instance key_le_dec : RelDecision key_le.
Proof. intros a b. unfold key_le. apply _. Defined.

Definition entries (s : gmap string A) : list (string * A) :=
  merge_sort key_le (map_to_list s).

Definition getAll (s : gmap string A) : list A := (entries s).*2.

Definition get (s : gmap string A) (key : string) : option A := s !! key.

(** Another record (one stored under a different primary key) already
    holds [r]'s key in a unique index. *)
Definition collides (s : gmap string A) (r : A) : bool :=
  existsb (λ kv, negb (String.eqb kv.1 (keyPath r)) && unique kv.2 r)
          (map_to_list s).

(** [store.add(r)]: fails with [ConstraintError] when the primary key
    is taken or a unique index would get a second record. *)
Definition add (s : gmap string A) (r : A) : Request (gmap string A) :=
  match s !! keyPath r with
  | Some _ => Failure ConstraintError
  | None =>
      if collides s r then Failure ConstraintError
      else Success (<[keyPath r := r]> s)
  end.

(** [store.put(r)]: replaces the record under [r]'s primary key; the
    unique indexes are still checked against the other records. *)
Definition put (s : gmap string A) (r : A) : Request (gmap string A) :=
  if collides s r then Failure ConstraintError
  else Success (<[keyPath r := r]> s).

(** [store.delete(key)] succeeds whether or not the key is present.
    [store.get(key)] gives [undefined] ([None]) for a key that is not. *)
Definition delete_key (s : gmap string A) (key : string) : gmap string A :=
  delete key s.

(** [index.getAll(k)]: a record is in an index only if the value at the
    index's key path is a key; the records with index key [k] come in
    primary-key order. *)
Definition index_getAll (indexKey : A → KeyCandidate) (k : KeyCandidate)
    (s : gmap string A) : list A :=
  filter (λ r, valid_key (indexKey r) = true ∧ indexKey r = k) (getAll s).
End ObjectStore.

End IDB.
Import IDB.

(** ** The records (the four interfaces at the top of database.ts) *)

Record Workspace := {
  ws_id : string;
  ws_name : string;
  ws_isDefault : bool;
  ws_createdAt : Date;
  ws_lastAccessedAt : Date }.

(** [archivedAt?: Date]: [None] is a record whose [archivedAt] reads
    [undefined], be the key missing or set to [undefined]. *)
Record TabGroup := {
  tg_id : string;
  tg_workspaceId : string;
  tg_name : string;
  tg_icon : string;
  tg_position : Z;
  tg_isArchived : bool;
  tg_archivedAt : option Date;
  tg_createdAt : Date }.

Record Tab := {
  tab_id : string;
  tab_groupId : string;
  tab_url : string;
  tab_title : string;
  tab_favicon : string;
  tab_position : Z;
  tab_isArchived : bool;
  tab_archivedAt : option Date;
  tab_createdAt : Date }.

(** [type: "tab" | "tabGroup" | "workspace"]. *)
Inductive ItemType := TypeTab | TypeTabGroup | TypeWorkspace.

(** [data: Workspace | TabGroup | Tab].  The tag [type] and the shape of
    [data] go together: the constructor of the snapshot is the tag. *)
Inductive Snapshot :=
  | OfWorkspace (w : Workspace)
  | OfTabGroup (g : TabGroup)
  | OfTab (t : Tab).

Record DeletedItem := {
  di_id : string;
  di_data : Snapshot;
  di_deletedAt : Date;
  di_originalLocation : string;
  di_parentId : option string }.

Definition di_type (item : DeletedItem) : ItemType :=
  match di_data item with
  | OfWorkspace _ => TypeWorkspace
  | OfTabGroup _ => TypeTabGroup
  | OfTab _ => TypeTab
  end.

(** The text [`${deletedItem.type}`] puts into a message. *)
Definition type_text (t : ItemType) : string :=
  match t with
  | TypeTab => "tab"
  | TypeTabGroup => "tabGroup"
  | TypeWorkspace => "workspace"
  end.

(** [Partial<Workspace>], [Partial<TabGroup>], [Partial<Tab>]: a field is
    named ([Some]) or left out ([None]). *)
Record PartialWorkspace := {
  pw_id : option string;
  pw_name : option string;
  pw_isDefault : option bool;
  pw_createdAt : option Date;
  pw_lastAccessedAt : option Date }.

Record PartialTabGroup := {
  pg_id : option string;
  pg_workspaceId : option string;
  pg_name : option string;
  pg_icon : option string;
  pg_position : option Z;
  pg_isArchived : option bool;
  pg_archivedAt : option (option Date);
  pg_createdAt : option Date }.

Record PartialTab := {
  pt_id : option string;
  pt_groupId : option string;
  pt_url : option string;
  pt_title : option string;
  pt_favicon : option string;
  pt_position : option Z;
  pt_isArchived : option bool;
  pt_archivedAt : option (option Date);
  pt_createdAt : option Date }.

(** [Partial<DeletedItem>]; [type] goes with [data]. *)
Record PartialDeletedItem := {
  pd_id : option string;
  pd_data : option Snapshot;
  pd_deletedAt : option Date;
  pd_originalLocation : option string;
  pd_parentId : option (option string) }.

(** One field of [{...existing, ...updates}]. *)
Definition spread {V} (existing : V) (updates : option V) : V :=
  match updates with Some v => v | None => existing end.

Definition mergeWorkspace (existing : Workspace) (updates : PartialWorkspace)
    : Workspace :=
  {| ws_id := spread (ws_id existing) (pw_id updates);
     ws_name := spread (ws_name existing) (pw_name updates);
     ws_isDefault := spread (ws_isDefault existing) (pw_isDefault updates);
     ws_createdAt := spread (ws_createdAt existing) (pw_createdAt updates);
     ws_lastAccessedAt :=
       spread (ws_lastAccessedAt existing) (pw_lastAccessedAt updates) |}.

Definition mergeTabGroup (existing : TabGroup) (updates : PartialTabGroup)
    : TabGroup :=
  {| tg_id := spread (tg_id existing) (pg_id updates);
     tg_workspaceId := spread (tg_workspaceId existing) (pg_workspaceId updates);
     tg_name := spread (tg_name existing) (pg_name updates);
     tg_icon := spread (tg_icon existing) (pg_icon updates);
     tg_position := spread (tg_position existing) (pg_position updates);
     tg_isArchived := spread (tg_isArchived existing) (pg_isArchived updates);
     tg_archivedAt := spread (tg_archivedAt existing) (pg_archivedAt updates);
     tg_createdAt := spread (tg_createdAt existing) (pg_createdAt updates) |}.

Definition mergeTab (existing : Tab) (updates : PartialTab) : Tab :=
  {| tab_id := spread (tab_id existing) (pt_id updates);
     tab_groupId := spread (tab_groupId existing) (pt_groupId updates);
     tab_url := spread (tab_url existing) (pt_url updates);
     tab_title := spread (tab_title existing) (pt_title updates);
     tab_favicon := spread (tab_favicon existing) (pt_favicon updates);
     tab_position := spread (tab_position existing) (pt_position updates);
     tab_isArchived := spread (tab_isArchived existing) (pt_isArchived updates);
     tab_archivedAt := spread (tab_archivedAt existing) (pt_archivedAt updates);
     tab_createdAt := spread (tab_createdAt existing) (pt_createdAt updates) |}.

Definition mergeDeletedItem (existing : DeletedItem)
    (updates : PartialDeletedItem) : DeletedItem :=
  {| di_id := spread (di_id existing) (pd_id updates);
     di_data := spread (di_data existing) (pd_data updates);
     di_deletedAt := spread (di_deletedAt existing) (pd_deletedAt updates);
     di_originalLocation :=
       spread (di_originalLocation existing) (pd_originalLocation updates);
     di_parentId := spread (di_parentId existing) (pd_parentId updates) |}.

(** ** The database (getDatabase, onupgradeneeded)

    Four object stores, each with [keyPath: "id"].  Two indexes are
    declared [unique: true]: [workspaceId_position] on tabGroups and
    [groupId_position] on tabs. *)
Record Database := {
  workspaces : gmap string Workspace;
  tabGroups : gmap string TabGroup;
  tabs : gmap string Tab;
  deletedItems : gmap string DeletedItem }.

Definition no_unique_index {A} (_ _ : A) : bool := false.

Definition workspaceId_position (g1 g2 : TabGroup) : bool :=
  String.eqb (tg_workspaceId g1) (tg_workspaceId g2)
  && Z.eqb (tg_position g1) (tg_position g2).

Definition groupId_position (t1 t2 : Tab) : bool :=
  String.eqb (tab_groupId t1) (tab_groupId t2)
  && Z.eqb (tab_position t1) (tab_position t2).

Definition with_workspaces (db : Database) (s : gmap string Workspace) :=
  {| workspaces := s; tabGroups := tabGroups db; tabs := tabs db;
     deletedItems := deletedItems db |}.
Definition with_tabGroups (db : Database) (s : gmap string TabGroup) :=
  {| workspaces := workspaces db; tabGroups := s; tabs := tabs db;
     deletedItems := deletedItems db |}.
Definition with_tabs (db : Database) (s : gmap string Tab) :=
  {| workspaces := workspaces db; tabGroups := tabGroups db; tabs := s;
     deletedItems := deletedItems db |}.
Definition with_deletedItems (db : Database) (s : gmap string DeletedItem) :=
  {| workspaces := workspaces db; tabGroups := tabGroups db; tabs := tabs db;
     deletedItems := s |}.

(** ** Transactions

    A transaction is active while it is being created and while a
    callback of one of its requests runs.  When such a callback returns to
    the event loop and no request of the transaction is pending, the
    transaction commits; from then on placing a request on one of its
    stores throws [TransactionInactiveError].  A request that fails
    without its error event being cancelled aborts the transaction, which
    undoes every write of the transaction. *)
Record Transaction := {
  tx_db : Database;
  tx_active : bool }.

Definition transaction (db : Database) : Transaction :=
  {| tx_db := db; tx_active := true |}.

(** The running callback waits for work that is not a request of [tx]
    (another connection, another transaction). *)
Definition returned_to_event_loop (tx : Transaction) : Transaction :=
  {| tx_db := tx_db tx; tx_active := false |}.

Inductive Placed (B : Type) :=
  | Threw (error : DOMException)
  | Queued (outcome : Request B).
Arguments Threw {B} error.
Arguments Queued {B} outcome.

Definition place {B} (tx : Transaction) (op : Database → Request B)
    : Placed B :=
  if tx_active tx then Queued (op (tx_db tx))
  else Threw TransactionInactiveError.

Definition on_success {B C} (f : B → C) (r : Request B) : Request C :=
  match r with
  | Success b => Success (f b)
  | Failure e => Failure e
  end.

(** ** CRUD

    database.ts repeats the same five functions for each store, with the
    store name and the entity name in the messages changed:
    - [create_record]: createWorkspace, createTabGroup, createTab,
      createDeletedItem;
    - [get_record]: getWorkspace, getTabGroup, getTab, getDeletedItem;
    - [getAll_records]: getAllWorkspaces, getAllTabGroups, getAllTabs,
      getAllDeletedItems;
    - [update_record]: updateWorkspace, updateTabGroup, updateTab,
      updateDeletedItem;
    - [delete_record]: deleteWorkspace, deleteTabGroup, deleteTab,
      deleteDeletedItem;
    - [rewrite_record]: archiveTabGroup, unarchiveTabGroup, archiveTab,
      unarchiveTab.
    Each function runs in one transaction and places its requests while
    that transaction is active.  A failed [add] or [put] has written
    nothing, so the store of a rejected call is the store it started
    from. *)
Section Crud.
Context {A P : Type}.
Variable keyPath : A → string.
Variable unique : A → A → bool.
Variable merge : A → P → A.
(** The name of the entity as the messages spell it, capitalised
    ("Tab group") and not ("tab group"). *)
Variable Name name : string.

Definition create_record (s : gmap string A) (r : A)
    : Promise unit * gmap string A :=
  match add keyPath unique s r with
  | Success s' => (Resolved tt, s')
  | Failure ConstraintError =>
      (Rejected (Error (Name +:+ " with ID '" +:+ keyPath r
                             +:+ "' already exists")), s)
  | Failure e =>
      (Rejected (ErrorWith ("Failed to create " +:+ name +:+ ": ") e), s)
  end.

(** [resolve(request.result || null)]; [null] is [None]. *)
Definition get_record (s : gmap string A) (id : string)
    : Promise (option A) :=
  Resolved (js_or (get s id) None).

(** [resolve(request.result || [])]. *)
Definition getAll_records (s : gmap string A) : Promise (list A) :=
  Resolved (js_or (getAll s) []).

Definition update_record (s : gmap string A) (id : string) (updates : P)
    : Promise unit * gmap string A :=
  match get s id with
  | None => (Rejected (Error (Name +:+ " with ID '" +:+ id +:+ "' not found")), s)
  | Some existing =>
      match put keyPath unique s (merge existing updates) with
      | Success s' => (Resolved tt, s')
      | Failure e =>
          (Rejected (ErrorWith ("Failed to update " +:+ name +:+ ": ") e), s)
      end
  end.

Definition delete_record (s : gmap string A) (id : string)
    : Promise unit * gmap string A :=
  (Resolved tt, delete_key s id).

(** The read-modify-write of the archive and unarchive functions;
    [verb] is "archive" or "unarchive". *)
Definition rewrite_record (verb : string) (change : A → A)
    (s : gmap string A) (id : string) : Promise unit * gmap string A :=
  match get s id with
  | None => (Rejected (Error (Name +:+ " with ID '" +:+ id +:+ "' not found")), s)
  | Some existing =>
      match put keyPath unique s (change existing) with
      | Success s' => (Resolved tt, s')
      | Failure e =>
          (Rejected (ErrorWith ("Failed to " +:+ verb +:+ " " +:+ name +:+ ": ") e), s)
      end
  end.
End Crud.

Definition in_workspaces {R} (db : Database)
    (f : gmap string Workspace → R * gmap string Workspace) : R * Database :=
  let '(r, s) := f (workspaces db) in (r, with_workspaces db s).
Definition in_tabGroups {R} (db : Database)
    (f : gmap string TabGroup → R * gmap string TabGroup) : R * Database :=
  let '(r, s) := f (tabGroups db) in (r, with_tabGroups db s).
Definition in_tabs {R} (db : Database)
    (f : gmap string Tab → R * gmap string Tab) : R * Database :=
  let '(r, s) := f (tabs db) in (r, with_tabs db s).
Definition in_deletedItems {R} (db : Database)
    (f : gmap string DeletedItem → R * gmap string DeletedItem) : R * Database :=
  let '(r, s) := f (deletedItems db) in (r, with_deletedItems db s).

(** *** Workspaces *)
Definition createWorkspace (db : Database) (workspace : Workspace) :=
  in_workspaces db (λ s,
    create_record ws_id no_unique_index "Workspace" "workspace" s workspace).
Definition getWorkspace (db : Database) (id : string) :=
  get_record (workspaces db) id.
Definition getAllWorkspaces (db : Database) :=
  getAll_records (workspaces db).
Definition updateWorkspace (db : Database) (id : string)
    (updates : PartialWorkspace) :=
  in_workspaces db (λ s,
    update_record ws_id no_unique_index mergeWorkspace
                  "Workspace" "workspace" s id updates).
Definition deleteWorkspace (db : Database) (id : string) :=
  in_workspaces db (λ s, delete_record s id).

(** *** Tab groups *)
Definition createTabGroup (db : Database) (tabGroup : TabGroup) :=
  in_tabGroups db (λ s,
    create_record tg_id workspaceId_position "Tab group" "tab group" s tabGroup).
Definition getTabGroup (db : Database) (id : string) :=
  get_record (tabGroups db) id.
Definition getAllTabGroups (db : Database) :=
  getAll_records (tabGroups db).
Definition updateTabGroup (db : Database) (id : string)
    (updates : PartialTabGroup) :=
  in_tabGroups db (λ s,
    update_record tg_id workspaceId_position mergeTabGroup
                  "Tab group" "tab group" s id updates).
Definition deleteTabGroup (db : Database) (id : string) :=
  in_tabGroups db (λ s, delete_record s id).

Definition archivedTabGroup (now : Date) (existing : TabGroup) : TabGroup :=
  {| tg_id := tg_id existing; tg_workspaceId := tg_workspaceId existing;
     tg_name := tg_name existing; tg_icon := tg_icon existing;
     tg_position := tg_position existing;
     tg_isArchived := true; tg_archivedAt := Some now;
     tg_createdAt := tg_createdAt existing |}.
Definition unarchivedTabGroup (existing : TabGroup) : TabGroup :=
  {| tg_id := tg_id existing; tg_workspaceId := tg_workspaceId existing;
     tg_name := tg_name existing; tg_icon := tg_icon existing;
     tg_position := tg_position existing;
     tg_isArchived := false; tg_archivedAt := None;
     tg_createdAt := tg_createdAt existing |}.

(** [now] is what [new Date()] reads. *)
Definition archiveTabGroup (now : Date) (db : Database) (id : string) :=
  in_tabGroups db (λ s,
    rewrite_record tg_id workspaceId_position "Tab group" "tab group"
                   "archive" (archivedTabGroup now) s id).
Definition unarchiveTabGroup (db : Database) (id : string) :=
  in_tabGroups db (λ s,
    rewrite_record tg_id workspaceId_position "Tab group" "tab group"
                   "unarchive" unarchivedTabGroup s id).

(** *** Tabs *)
Definition createTab (db : Database) (tab : Tab) :=
  in_tabs db (λ s, create_record tab_id groupId_position "Tab" "tab" s tab).
Definition getTab (db : Database) (id : string) :=
  get_record (tabs db) id.
Definition getAllTabs (db : Database) :=
  getAll_records (tabs db).
Definition updateTab (db : Database) (id : string) (updates : PartialTab) :=
  in_tabs db (λ s,
    update_record tab_id groupId_position mergeTab "Tab" "tab" s id updates).
Definition deleteTab (db : Database) (id : string) :=
  in_tabs db (λ s, delete_record s id).

Definition archivedTab (now : Date) (existing : Tab) : Tab :=
  {| tab_id := tab_id existing; tab_groupId := tab_groupId existing;
     tab_url := tab_url existing; tab_title := tab_title existing;
     tab_favicon := tab_favicon existing; tab_position := tab_position existing;
     tab_isArchived := true; tab_archivedAt := Some now;
     tab_createdAt := tab_createdAt existing |}.
Definition unarchivedTab (existing : Tab) : Tab :=
  {| tab_id := tab_id existing; tab_groupId := tab_groupId existing;
     tab_url := tab_url existing; tab_title := tab_title existing;
     tab_favicon := tab_favicon existing; tab_position := tab_position existing;
     tab_isArchived := false; tab_archivedAt := None;
     tab_createdAt := tab_createdAt existing |}.

Definition archiveTab (now : Date) (db : Database) (id : string) :=
  in_tabs db (λ s,
    rewrite_record tab_id groupId_position "Tab" "tab"
                   "archive" (archivedTab now) s id).
Definition unarchiveTab (db : Database) (id : string) :=
  in_tabs db (λ s,
    rewrite_record tab_id groupId_position "Tab" "tab"
                   "unarchive" unarchivedTab s id).

(** *** Deleted items *)
Definition createDeletedItem (db : Database) (deletedItem : DeletedItem) :=
  in_deletedItems db (λ s,
    create_record di_id no_unique_index "Deleted item" "deleted item"
                  s deletedItem).
Definition getDeletedItem (db : Database) (id : string) :=
  get_record (deletedItems db) id.
Definition getAllDeletedItems (db : Database) :=
  getAll_records (deletedItems db).
Definition updateDeletedItem (db : Database) (id : string)
    (updates : PartialDeletedItem) :=
  in_deletedItems db (λ s,
    update_record di_id no_unique_index mergeDeletedItem
                  "Deleted item" "deleted item" s id updates).
Definition deleteDeletedItem (db : Database) (id : string) :=
  in_deletedItems db (λ s, delete_record s id).

(** [resolve(request.result)]. *)
Definition getDeletedItems (db : Database) : Promise (list DeletedItem) :=
  Resolved (getAll (deletedItems db)).

Definition permanentlyDeleteItem (db : Database) (itemId : string)
    : Promise bool * Database :=
  (Resolved true, with_deletedItems db (delete_key (deletedItems db) itemId)).

(** ** The trash: retention, restore, sweep, listings *)

(** [now] is what [Date.now()] reads. *)
Definition isWithinRetentionPeriod (now : Z) (deletedAt : Date) : bool :=
  let retentionPeriodMs := 14 * 24 * 60 * 60 * 1000 in
  let cutoffDate := now - retentionPeriodMs in
  deletedAt >? cutoffDate.

(** The three helpers each open a connection and a read-only transaction
    of their own and read the committed stores. *)
Definition validateWorkspaceExists (db : Database) (workspaceId : string) : bool :=
  truthy (get (workspaces db) workspaceId).

Definition validateTabGroupExists (db : Database) (groupId : string) : bool :=
  truthy (get (tabGroups db) groupId).

Definition checkIdConflict (db : Database) (id : string) (type : ItemType) : bool :=
  match type with
  | TypeWorkspace => truthy (get (workspaces db) id)
  | TypeTabGroup => truthy (get (tabGroups db) id)
  | TypeTab => truthy (get (tabs db) id)
  end.

(** Steps 4 and 5 of restoreDeletedItem: [add] the snapshot to the store
    of its type, [delete] the tombstone, [resolve(true)].  Neither request
    has a handler: placing one on an inactive transaction throws (the
    surrounding [catch] rejects with the exception); a request that fails
    later aborts the transaction after the promise has resolved. *)
Definition add_snapshot (d : Database) (data : Snapshot) : Request Database :=
  match data with
  | OfWorkspace w =>
      on_success (with_workspaces d) (add ws_id no_unique_index (workspaces d) w)
  | OfTabGroup g =>
      on_success (with_tabGroups d) (add tg_id workspaceId_position (tabGroups d) g)
  | OfTab t =>
      on_success (with_tabs d) (add tab_id groupId_position (tabs d) t)
  end.

Definition proceed_with_restoration (tx : Transaction) (db : Database)
    (deletedItemId : string) (deletedItem : DeletedItem)
    : Promise bool * Database :=
  match place tx (λ d, add_snapshot d (di_data deletedItem)) with
  | Threw error => (Rejected (Thrown error), db)
  | Queued added =>
      match place tx (λ d, Success (delete_key (deletedItems d) deletedItemId)) with
      | Threw error => (Rejected (Thrown error), db)
      | Queued _ =>
          (Resolved true,
           match added with
           | Success d' =>
               with_deletedItems d' (delete_key (deletedItems d') deletedItemId)
           | Failure _ => db
           end)
      end
  end.

Definition restoreDeletedItem (now : Z) (db : Database) (deletedItemId : string)
    : Promise bool * Database :=
  let tx := transaction db in
  match get (deletedItems (tx_db tx)) deletedItemId with
  | None => (Rejected (Error "Deleted item not found"), db)
  | Some deletedItem =>
      (* 1. Check retention period *)
      if negb (isWithinRetentionPeriod now (di_deletedAt deletedItem)) then
        (Rejected (Error "Item has exceeded 14-day retention period and cannot be restored"), db)
      else
        (* 2. Check for ID conflicts.  [await checkIdConflict(...)]: the
           success callback of [getRequest] returns here. *)
        let tx := returned_to_event_loop tx in
        if checkIdConflict db (di_id deletedItem) (di_type deletedItem) then
          (Rejected (Error ("Cannot restore " +:+ type_text (di_type deletedItem)
                            +:+ ": ID " +:+ di_id deletedItem +:+ " already exists")), db)
        else
          (* 3. Validate parent containers based on type *)
          match di_data deletedItem with
          | OfWorkspace _ =>
              proceed_with_restoration tx db deletedItemId deletedItem
          | OfTabGroup g =>
              if negb (validateWorkspaceExists db (tg_workspaceId g)) then
                (Rejected (Error ("Cannot restore tab group: parent workspace "
                                  +:+ tg_workspaceId g +:+ " does not exist")), db)
              else proceed_with_restoration tx db deletedItemId deletedItem
          | OfTab t =>
              if negb (validateTabGroupExists db (tab_groupId t)) then
                (Rejected (Error ("Cannot restore tab: parent tab group "
                                  +:+ tab_groupId t +:+ " does not exist")), db)
              else proceed_with_restoration tx db deletedItemId deletedItem
          end
  end.

Definition getNonExpiredDeletedItems (now : Z) (db : Database)
    : Promise (list DeletedItem) :=
  let allItems := js_or (getAll (deletedItems db)) [] in
  Resolved (filter (λ item, isWithinRetentionPeriod now (di_deletedAt item) = true)
                   allItems).

Definition getExpiredDeletedItems (now : Z) (db : Database)
    : Promise (list DeletedItem) :=
  let allItems := js_or (getAll (deletedItems db)) [] in
  Resolved (filter (λ item, negb (isWithinRetentionPeriod now (di_deletedAt item)) = true)
                   allItems).

(** The sweep.  [deleteFails key]: the engine fails the delete request
    for [key] (a storage failure).  The error handler logs and counts but
    does not cancel the error event, so the first failure aborts the
    transaction: the requests still pending then fail with [AbortError]
    (each runs the same handler) and the deletions made so far are undone. *)
Record Sweep := {
  sw_store : gmap string DeletedItem;
  deletedCount : nat;
  completedDeletions : nat;
  sw_aborted : bool }.

Definition sweep_request (deleteFails : string → bool) (st : Sweep)
    (item : DeletedItem) : Sweep :=
  if sw_aborted st || deleteFails (di_id item) then
    (* deleteRequest.onerror *)
    {| sw_store := sw_store st;
       deletedCount := deletedCount st;
       completedDeletions := S (completedDeletions st);
       sw_aborted := true |}
  else
    (* deleteRequest.onsuccess *)
    {| sw_store := delete_key (sw_store st) (di_id item);
       deletedCount := S (deletedCount st);
       completedDeletions := S (completedDeletions st);
       sw_aborted := false |}.

Definition cleanupExpiredDeletedItems (now : Z) (deleteFails : string → bool)
    (db : Database) : Promise nat * Database :=
  let cutoffDate := now - (14 * 24 * 60 * 60 * 1000) in
  let allDeletedItems := getAll (deletedItems db) in
  let expiredItems :=
    filter (λ item, di_deletedAt item < cutoffDate) allDeletedItems in
  if Nat.eqb (length expiredItems) 0 then (Resolved 0%nat, db)
  else
    let st := foldl (sweep_request deleteFails)
                    {| sw_store := deletedItems db; deletedCount := 0;
                       completedDeletions := 0; sw_aborted := false |}
                    expiredItems in
    (Resolved (deletedCount st),
     if sw_aborted st then db else with_deletedItems db (sw_store st)).

(** ** Counting queries *)

Definition getTabCount (db : Database) (groupId : string) : Promise nat :=
  let result :=
    index_getAll (λ t, VString (tab_groupId t)) (VString groupId) (tabs db) in
  let activeTabs := filter (λ t, negb (tab_isArchived t) = true) result in
  Resolved (length activeTabs).

Definition getWorkSpaceCount (db : Database) (workspaceId : string)
    : Promise nat :=
  (* Step 1: Get all active groups for the workspace *)
  let result :=
    index_getAll (λ g, VString (tg_workspaceId g)) (VString workspaceId)
                 (tabGroups db) in
  let activeGroups := filter (λ g, negb (tg_isArchived g) = true) result in
  if Nat.eqb (length activeGroups) 0 then Resolved 0%nat
  else
    let activeGroupIds : gset string := list_to_set (tg_id <$> activeGroups) in
    (* Step 2: [tabStore.index("isArchived").getAll(IDBKeyRange.only(false))],
       inside [try]: an exception is rejected as "Failed to process group data" *)
    match IDBKeyRange_only (VBoolean false) with
    | Failure error => Rejected (ErrorWith "Failed to process group data: " error)
    | Success range =>
        let tabResult :=
          index_getAll (λ t, VBoolean (tab_isArchived t)) range (tabs db) in
        let activeTabs :=
          filter (λ t, tab_groupId t ∈ activeGroupIds
                       ∧ negb (tab_isArchived t) = true) tabResult in
        Resolved (length activeTabs)
    end.

(** The count the specification describes for a workspace: the tabs with
    [isArchived = false] whose [groupId] is the id of a non-archived
    group of the workspace.  It is here to be compared with
    [getWorkSpaceCount]. *)
Definition activeWorkspaceTabCount (db : Database) (workspaceId : string) : nat :=
  let activeGroupIds : gset string :=
    list_to_set
      (tg_id <$> filter (λ g, tg_workspaceId g = workspaceId
                              ∧ tg_isArchived g = false)
                        (getAll (tabGroups db))) in
  length (filter (λ t, tab_isArchived t = false ∧ tab_groupId t ∈ activeGroupIds)
                 (getAll (tabs db))).

(** ** Invariants of a store

    The engine files every record under the value of its key path, and a
    unique index never holds two records. *)
Section StoreInvariants.
Context {A : Type}.
Variable keyPath : A → string.
Variable unique : A → A → bool.

Definition keyed (s : gmap string A) : Prop :=
  ∀ k r, s !! k = Some r → keyPath r = k.

Definition index_unique (s : gmap string A) : Prop :=
  ∀ k1 r1 k2 r2,
    s !! k1 = Some r1 → s !! k2 = Some r2 → k1 ≠ k2 → unique r1 r2 = false.

Definition wf_store (s : gmap string A) : Prop :=
  keyed s ∧ index_unique s.

(** The two invariants as computations, for checking a given store. *)
Definition keyedb (s : gmap string A) : bool :=
  forallb (λ kv, String.eqb (keyPath kv.2) kv.1) (map_to_list s).

Definition index_uniqueb (s : gmap string A) : bool :=
  forallb (λ kv1,
    forallb (λ kv2, String.eqb kv1.1 kv2.1 || negb (unique kv1.2 kv2.2))
            (map_to_list s))
    (map_to_list s).
End StoreInvariants.

Definition wf_workspaces (db : Database) : Prop :=
  wf_store ws_id no_unique_index (workspaces db).
Definition wf_tabGroups (db : Database) : Prop :=
  wf_store tg_id workspaceId_position (tabGroups db).
Definition wf_tabs (db : Database) : Prop :=
  wf_store tab_id groupId_position (tabs db).
Definition wf_deletedItems (db : Database) : Prop :=
  wf_store di_id no_unique_index (deletedItems db).

Definition wf_database (db : Database) : Prop :=
  wf_workspaces db ∧ wf_tabGroups db ∧ wf_tabs db ∧ wf_deletedItems db.

(** ** The databases the program can reach

    A database starts with four empty stores (onupgradeneeded) and changes
    only through the exported functions that write. *)
Inductive Call :=
  | CreateWorkspace (workspace : Workspace)
  | UpdateWorkspace (id : string) (updates : PartialWorkspace)
  | DeleteWorkspace (id : string)
  | CreateTabGroup (tabGroup : TabGroup)
  | UpdateTabGroup (id : string) (updates : PartialTabGroup)
  | DeleteTabGroup (id : string)
  | ArchiveTabGroup (now : Date) (id : string)
  | UnarchiveTabGroup (id : string)
  | CreateTab (tab : Tab)
  | UpdateTab (id : string) (updates : PartialTab)
  | DeleteTab (id : string)
  | ArchiveTab (now : Date) (id : string)
  | UnarchiveTab (id : string)
  | CreateDeletedItem (deletedItem : DeletedItem)
  | UpdateDeletedItem (id : string) (updates : PartialDeletedItem)
  | DeleteDeletedItem (id : string)
  | PermanentlyDeleteItem (itemId : string)
  | RestoreDeletedItem (now : Z) (deletedItemId : string)
  | CleanupExpiredDeletedItems (now : Z) (deleteFails : string → bool).

Definition run (call : Call) (db : Database) : Database :=
  match call with
  | CreateWorkspace w => (createWorkspace db w).2
  | UpdateWorkspace id u => (updateWorkspace db id u).2
  | DeleteWorkspace id => (deleteWorkspace db id).2
  | CreateTabGroup g => (createTabGroup db g).2
  | UpdateTabGroup id u => (updateTabGroup db id u).2
  | DeleteTabGroup id => (deleteTabGroup db id).2
  | ArchiveTabGroup now id => (archiveTabGroup now db id).2
  | UnarchiveTabGroup id => (unarchiveTabGroup db id).2
  | CreateTab t => (createTab db t).2
  | UpdateTab id u => (updateTab db id u).2
  | DeleteTab id => (deleteTab db id).2
  | ArchiveTab now id => (archiveTab now db id).2
  | UnarchiveTab id => (unarchiveTab db id).2
  | CreateDeletedItem item => (createDeletedItem db item).2
  | UpdateDeletedItem id u => (updateDeletedItem db id u).2
  | DeleteDeletedItem id => (deleteDeletedItem db id).2
  | PermanentlyDeleteItem id => (permanentlyDeleteItem db id).2
  | RestoreDeletedItem now id => (restoreDeletedItem now db id).2
  | CleanupExpiredDeletedItems now deleteFails =>
      (cleanupExpiredDeletedItems now deleteFails db).2
  end.

Definition fresh : Database :=
  {| workspaces := ∅; tabGroups := ∅; tabs := ∅; deletedItems := ∅ |}.

Inductive reachable : Database → Prop :=
  | reachable_fresh : reachable fresh
  | reachable_run call db : reachable db → reachable (run call db).

(** ** Merge semantics, field by field

    A field named in the updates takes the new value; a field that is not
    named keeps its prior value. *)
Definition takes {V} (named : option V) (prior new : V) : Prop :=
  match named with
  | Some v => new = v
  | None => new = prior
  end.

Definition merged_Workspace (prior : Workspace) (updates : PartialWorkspace)
    (new : Workspace) : Prop :=
  takes (pw_id updates) (ws_id prior) (ws_id new)
  ∧ takes (pw_name updates) (ws_name prior) (ws_name new)
  ∧ takes (pw_isDefault updates) (ws_isDefault prior) (ws_isDefault new)
  ∧ takes (pw_createdAt updates) (ws_createdAt prior) (ws_createdAt new)
  ∧ takes (pw_lastAccessedAt updates) (ws_lastAccessedAt prior)
          (ws_lastAccessedAt new).

Definition merged_TabGroup (prior : TabGroup) (updates : PartialTabGroup)
    (new : TabGroup) : Prop :=
  takes (pg_id updates) (tg_id prior) (tg_id new)
  ∧ takes (pg_workspaceId updates) (tg_workspaceId prior) (tg_workspaceId new)
  ∧ takes (pg_name updates) (tg_name prior) (tg_name new)
  ∧ takes (pg_icon updates) (tg_icon prior) (tg_icon new)
  ∧ takes (pg_position updates) (tg_position prior) (tg_position new)
  ∧ takes (pg_isArchived updates) (tg_isArchived prior) (tg_isArchived new)
  ∧ takes (pg_archivedAt updates) (tg_archivedAt prior) (tg_archivedAt new)
  ∧ takes (pg_createdAt updates) (tg_createdAt prior) (tg_createdAt new).

Definition merged_Tab (prior : Tab) (updates : PartialTab) (new : Tab) : Prop :=
  takes (pt_id updates) (tab_id prior) (tab_id new)
  ∧ takes (pt_groupId updates) (tab_groupId prior) (tab_groupId new)
  ∧ takes (pt_url updates) (tab_url prior) (tab_url new)
  ∧ takes (pt_title updates) (tab_title prior) (tab_title new)
  ∧ takes (pt_favicon updates) (tab_favicon prior) (tab_favicon new)
  ∧ takes (pt_position updates) (tab_position prior) (tab_position new)
  ∧ takes (pt_isArchived updates) (tab_isArchived prior) (tab_isArchived new)
  ∧ takes (pt_archivedAt updates) (tab_archivedAt prior) (tab_archivedAt new)
  ∧ takes (pt_createdAt updates) (tab_createdAt prior) (tab_createdAt new).

Definition merged_DeletedItem (prior : DeletedItem)
    (updates : PartialDeletedItem) (new : DeletedItem) : Prop :=
  takes (pd_id updates) (di_id prior) (di_id new)
  ∧ takes (pd_data updates) (di_data prior) (di_data new)
  ∧ takes (pd_deletedAt updates) (di_deletedAt prior) (di_deletedAt new)
  ∧ takes (pd_originalLocation updates) (di_originalLocation prior)
          (di_originalLocation new)
  ∧ takes (pd_parentId updates) (di_parentId prior) (di_parentId new).

(** Another group holds the slot (workspaceId, position) of [g]. *)
Definition slot_taken_by_other_group (db : Database) (id : string) (g : TabGroup)
    : Prop :=
  ∃ k g', tabGroups db !! k = Some g' ∧ k ≠ id
          ∧ tg_workspaceId g' = tg_workspaceId g ∧ tg_position g' = tg_position g.

(** Another tab holds the slot (groupId, position) of [t]. *)
Definition slot_taken_by_other_tab (db : Database) (id : string) (t : Tab)
    : Prop :=
  ∃ k t', tabs db !! k = Some t' ∧ k ≠ id
          ∧ tab_groupId t' = tab_groupId t ∧ tab_position t' = tab_position t.

(** ** Sample data *)
Module Sample.
Definition day : Z := 24 * 60 * 60 * 1000.
Definition now : Z := 100 * day.

Definition home : Workspace :=
  {| ws_id := "w1"; ws_name := "Home"; ws_isDefault := true;
     ws_createdAt := 0; ws_lastAccessedAt := 0 |}.

Definition group (id workspaceId : string) (position : Z) (isArchived : bool)
    : TabGroup :=
  {| tg_id := id; tg_workspaceId := workspaceId; tg_name := "Reading";
     tg_icon := "book"; tg_position := position; tg_isArchived := isArchived;
     tg_archivedAt := if isArchived then Some (50 * day) else None;
     tg_createdAt := 0 |}.

Definition tab (id groupId : string) (position : Z) : Tab :=
  {| tab_id := id; tab_groupId := groupId; tab_url := "https://example.com";
     tab_title := "Example"; tab_favicon := "https://example.com/favicon.ico";
     tab_position := position; tab_isArchived := false;
     tab_archivedAt := None; tab_createdAt := 0 |}.

Definition tombstone (id : string) (data : Snapshot) (deletedAt : Date)
    : DeletedItem :=
  {| di_id := id; di_data := data; di_deletedAt := deletedAt;
     di_originalLocation := "Home"; di_parentId := None |}.

(** A trash with one tombstone per outcome of the restore checks. *)
Definition trashed : Database :=
  {| workspaces := {[ "w1" := home ]};
     tabGroups := {[ "g1" := group "g1" "w1" 0 false ]};
     tabs := {[ "t1" := tab "t1" "g1" 0 ]};
     deletedItems := list_to_map [
       ("t1", tombstone "t1" (OfTab (tab "t1" "gX" 0)) (now - 15 * day));
       ("g1", tombstone "g1" (OfTabGroup (group "g1" "wX" 3 false)) (now - day));
       ("g7", tombstone "g7" (OfTabGroup (group "g7" "wX" 3 false)) (now - day));
       ("t7", tombstone "t7" (OfTab (tab "t7" "gX" 0)) (now - day));
       ("t8", tombstone "t8" (OfTab (tab "t8" "g1" 5)) (now - 13 * day));
       ("w7", tombstone "w7" (OfWorkspace
                {| ws_id := "w7"; ws_name := "Work"; ws_isDefault := false;
                   ws_createdAt := 0; ws_lastAccessedAt := 0 |}) (now - day)) ] |}.

(** One group at slot 0 of workspace w1. *)
Definition one_group : Database :=
  {| workspaces := {[ "w1" := home ]};
     tabGroups := {[ "g1" := group "g1" "w1" 0 false ]};
     tabs := ∅; deletedItems := ∅ |}.

(** A group g2 already stored, at slot 5. *)
Definition holds_g2 : Database :=
  {| workspaces := {[ "w1" := home ]};
     tabGroups := {[ "g2" := group "g2" "w1" 5 false ]};
     tabs := ∅; deletedItems := ∅ |}.

(** Two groups of w1, at slots 0 and 1. *)
Definition two_groups : Database :=
  {| workspaces := {[ "w1" := home ]};
     tabGroups := list_to_map [("g1", group "g1" "w1" 0 false);
                               ("g2", group "g2" "w1" 1 false)];
     tabs := ∅; deletedItems := ∅ |}.

Definition move_to_slot_0 : PartialTabGroup :=
  {| pg_id := None; pg_workspaceId := None; pg_name := None; pg_icon := None;
     pg_position := Some 0; pg_isArchived := None; pg_archivedAt := None;
     pg_createdAt := None |}.

Definition rename_group : PartialTabGroup :=
  {| pg_id := None; pg_workspaceId := None; pg_name := Some "Later";
     pg_icon := None; pg_position := None; pg_isArchived := None;
     pg_archivedAt := None; pg_createdAt := None |}.

Definition rename_workspace : PartialWorkspace :=
  {| pw_id := None; pw_name := Some "Office"; pw_isDefault := None;
     pw_createdAt := None; pw_lastAccessedAt := None |}.

Definition change_id_to_w2 : PartialWorkspace :=
  {| pw_id := Some "w2"; pw_name := None; pw_isDefault := None;
     pw_createdAt := None; pw_lastAccessedAt := None |}.

Definition retitle_tab : PartialTab :=
  {| pt_id := None; pt_groupId := None; pt_url := None;
     pt_title := Some "Read me"; pt_favicon := None; pt_position := None;
     pt_isArchived := None; pt_archivedAt := None; pt_createdAt := None |}.

(** A workspace with an active group g1 and an archived group g2, three
    non-archived tabs in each. *)
Definition two_groups_six_tabs : Database :=
  {| workspaces := {[ "w1" := home ]};
     tabGroups := list_to_map [("g1", group "g1" "w1" 0 false);
                               ("g2", group "g2" "w1" 1 true)];
     tabs := list_to_map [("t1", tab "t1" "g1" 0); ("t2", tab "t2" "g1" 1);
                          ("t3", tab "t3" "g1" 2); ("t4", tab "t4" "g2" 0);
                          ("t5", tab "t5" "g2" 1); ("t6", tab "t6" "g2" 2)];
     deletedItems := ∅ |}.

(** Two expired tombstones (a, b) and a recent one (c). *)
Definition sweepable : Database :=
  {| workspaces := ∅; tabGroups := ∅; tabs := ∅;
     deletedItems := list_to_map [
       ("a", tombstone "a" (OfTab (tab "a" "g1" 0)) (now - 20 * day));
       ("b", tombstone "b" (OfTab (tab "b" "g1" 1)) (now - 15 * day));
       ("c", tombstone "c" (OfTab (tab "c" "g1" 2)) (now - day)) ] |}.
End Sample.

(** * The rest of database.ts *)

(** ** Opening the database (getDatabase, onupgradeneeded)

    What is on disk: a version number and, for each store name, the store
    if it exists, with the indexes it was created with and its records. *)
Record IndexSpec := {
  ix_name : string;
  ix_keyPath : list string;
  ix_unique : bool }.

Record ObjectStore (A : Type) := {
  os_keyPath : string;
  os_indexes : list IndexSpec;
  os_records : gmap string A }.
Arguments os_keyPath {A} _.
Arguments os_indexes {A} _.
Arguments os_records {A} _.

Record Stores := {
  st_workspaces : option (ObjectStore Workspace);
  st_tabGroups : option (ObjectStore TabGroup);
  st_tabs : option (ObjectStore Tab);
  st_deletedItems : option (ObjectStore DeletedItem) }.

Record StoredDatabase := {
  sd_version : Z;
  sd_stores : Stores }.

Definition DB_VERSION : Z := 4.

(** [db.createObjectStore(name, { keyPath: "id" })] followed by the
    [createIndex] calls of the store. *)
Definition createObjectStore {A} (indexes : list IndexSpec) : ObjectStore A :=
  {| os_keyPath := "id"; os_indexes := indexes; os_records := ∅ |}.

Definition index (name : string) (keyPath : list string) (unique : bool) : IndexSpec :=
  {| ix_name := name; ix_keyPath := keyPath; ix_unique := unique |}.

Definition workspaceIndexes : list IndexSpec :=
  [ index "name" ["name"] false;
    index "isDefault" ["isDefault"] false;
    index "createdAt" ["createdAt"] false;
    index "lastAccessedAt" ["lastAccessedAt"] false ].

Definition tabGroupIndexes : list IndexSpec :=
  [ index "workspaceId" ["workspaceId"] false;
    index "name" ["name"] false;
    index "position" ["position"] false;
    index "workspaceId_position" ["workspaceId"; "position"] true;
    index "isArchived" ["isArchived"] false;
    index "createdAt" ["createdAt"] false ].

Definition tabIndexes : list IndexSpec :=
  [ index "groupId" ["groupId"] false;
    index "position" ["position"] false;
    index "groupId_position" ["groupId"; "position"] true;
    index "isArchived" ["isArchived"] false;
    index "url" ["url"] false;
    index "title" ["title"] false;
    index "createdAt" ["createdAt"] false ].

Definition deletedItemIndexes : list IndexSpec :=
  [ index "type" ["type"] false;
    index "deletedAt" ["deletedAt"] false;
    index "parentId" ["parentId"] false ].

(** [db.objectStoreNames.contains(name)]. *)
Definition contains {A} (store : option (ObjectStore A)) : bool :=
  match store with Some _ => true | None => false end.

(** The block "Handle migration from version 2 to 3": the tab group store
    and the tab store are deleted when they exist. *)
Definition delete_old_stores (db : Stores) : Stores :=
  let db :=
    if contains (st_tabGroups db) then
      {| st_workspaces := st_workspaces db; st_tabGroups := None;
         st_tabs := st_tabs db; st_deletedItems := st_deletedItems db |}
    else db in
  if contains (st_tabs db) then
    {| st_workspaces := st_workspaces db; st_tabGroups := st_tabGroups db;
       st_tabs := None; st_deletedItems := st_deletedItems db |}
  else db.

(** The four blocks that create a store when the database has none of
    that name. *)
Definition create_missing_stores (db : Stores) : Stores :=
  (* Create Workspaces Store *)
  let db :=
    if negb (contains (st_workspaces db)) then
      {| st_workspaces := Some (createObjectStore workspaceIndexes);
         st_tabGroups := st_tabGroups db; st_tabs := st_tabs db;
         st_deletedItems := st_deletedItems db |}
    else db in
  (* Create TabGroup Store with scoped position uniqueness *)
  let db :=
    if negb (contains (st_tabGroups db)) then
      {| st_workspaces := st_workspaces db;
         st_tabGroups := Some (createObjectStore tabGroupIndexes);
         st_tabs := st_tabs db; st_deletedItems := st_deletedItems db |}
    else db in
  (* Create Tab Store with scoped position uniqueness *)
  let db :=
    if negb (contains (st_tabs db)) then
      {| st_workspaces := st_workspaces db; st_tabGroups := st_tabGroups db;
         st_tabs := Some (createObjectStore tabIndexes);
         st_deletedItems := st_deletedItems db |}
    else db in
  (* Create Deleted Items Store *)
  if negb (contains (st_deletedItems db)) then
    {| st_workspaces := st_workspaces db; st_tabGroups := st_tabGroups db;
       st_tabs := st_tabs db;
       st_deletedItems := Some (createObjectStore deletedItemIndexes) |}
  else db.

Definition onupgradeneeded (oldVersion : Z) (db : Stores) : Stores :=
  create_missing_stores
    (if (oldVersion <? 3)%Z then delete_old_stores db else db).

(** [indexedDB.open(DB_NAME, DB_VERSION)]: a database that does not exist
    yet has version 0 and no store; a stored version above the requested
    one fails the request ([request.onerror]); a stored version below it
    runs [onupgradeneeded] and sets the version; an equal one opens the
    database as it is. *)
Definition not_created : StoredDatabase :=
  {| sd_version := 0;
     sd_stores := {| st_workspaces := None; st_tabGroups := None;
                     st_tabs := None; st_deletedItems := None |} |}.

Definition getDatabase (disk : StoredDatabase) : Promise StoredDatabase :=
  if (DB_VERSION <? sd_version disk)%Z then
    Rejected (Error "Failed to connect to database")
  else if (sd_version disk <? DB_VERSION)%Z then
    Resolved {| sd_version := DB_VERSION;
                sd_stores := onupgradeneeded (sd_version disk) (sd_stores disk) |}
  else Resolved disk.

Definition has_unique_index {A} (store : option (ObjectStore A))
    (name : string) (keyPath : list string) : Prop :=
  ∃ s, store = Some s ∧ index name keyPath true ∈ os_indexes s.

Definition all_stores_exist (db : Stores) : Prop :=
  is_Some (st_workspaces db) ∧ is_Some (st_tabGroups db)
  ∧ is_Some (st_tabs db) ∧ is_Some (st_deletedItems db).

(** ** Queries through an index *)

(** [index.get(key)]: the first record of [index.getAll(key)]. *)
Definition index_get {A} (indexKey : A → KeyCandidate) (k : KeyCandidate)
    (s : gmap string A) : option A :=
  head (index_getAll indexKey k s).

(** An array is a key when each of its members is one.
    [index.get([k1, k2])] on an index with key path [[p1, p2]]: the first
    record, in primary-key order, whose values at the two paths are the
    two keys. *)
Definition index_get_array {A} (indexKey : A → list KeyCandidate)
    (k : list KeyCandidate) (s : gmap string A) : option A :=
  head (filter (λ r, forallb valid_key (indexKey r) = true ∧ indexKey r = k)
               (getAll s)).

Definition getTabGroupByPosition (db : Database) (workspaceId : string)
    (position : Z) : Promise (option TabGroup) :=
  Resolved (js_or
    (index_get_array (λ g, [VString (tg_workspaceId g); VNumber (tg_position g)])
                     [VString workspaceId; VNumber position] (tabGroups db))
    None).

(** [index.get(IDBKeyRange.only(true))]: the key range is built first,
    inside the executor of the promise, whose exception rejects the
    promise. *)
Definition getDefaultWorkspace (db : Database) : Promise (option Workspace) :=
  match IDBKeyRange_only (VBoolean true) with
  | Failure error => Rejected (Thrown error)
  | Success range =>
      Resolved (js_or (index_get (λ w, VBoolean (ws_isDefault w)) range
                                 (workspaces db)) None)
  end.

Definition getTabGroupsByWorkspace (db : Database) (workspaceId : string)
    : Promise (list TabGroup) :=
  Resolved (js_or
    (index_getAll (λ g, VString (tg_workspaceId g)) (VString workspaceId)
                  (tabGroups db)) []).

Definition getActiveTabGroupsByWorkspace (db : Database) (workspaceId : string)
    : Promise (list TabGroup) :=
  let result :=
    index_getAll (λ g, VString (tg_workspaceId g)) (VString workspaceId)
                 (tabGroups db) in
  Resolved (filter (λ g, negb (tg_isArchived g) = true) result).

Definition getTabsByGroup (db : Database) (groupId : string)
    : Promise (list Tab) :=
  Resolved (js_or
    (index_getAll (λ t, VString (tab_groupId t)) (VString groupId) (tabs db)) []).

Definition getActiveTabsByGroup (db : Database) (groupId : string)
    : Promise (list Tab) :=
  let result :=
    index_getAll (λ t, VString (tab_groupId t)) (VString groupId) (tabs db) in
  Resolved (filter (λ t, negb (tab_isArchived t) = true) result).

Definition getTabsByUrl (db : Database) (url : string) : Promise (list Tab) :=
  Resolved (js_or
    (index_getAll (λ t, VString (tab_url t)) (VString url) (tabs db)) []).


Definition parentId_key (item : DeletedItem) : KeyCandidate :=
  match di_parentId item with
  | Some parentId => VString parentId
  | None => VUndefined
  end.


Definition getDeletedItemsByParentId (db : Database) (parentId : string)
    : Promise (list DeletedItem) :=
  Resolved (js_or
    (index_getAll parentId_key (VString parentId) (deletedItems db)) []).


(** ** Search *)

(** A string is its sequence of code units, each below 256.
    [toLowerCase] maps A-Z and the capital letters of the Latin-1 block
    (0xC0-0xDE without the multiplication sign 0xD7) 32 places up and
    leaves every other code unit below 256 as it is. *)
Definition lower_code_unit (c : Ascii.ascii) : Ascii.ascii :=
  let n := Ascii.nat_of_ascii c in
  if ((65 <=? n) && (n <=? 90)
      || (192 <=? n) && (n <=? 222) && negb (n =? 215))%nat
  then Ascii.ascii_of_nat (n + 32) else c.

Fixpoint toLowerCase (s : string) : string :=
  match s with
  | EmptyString => EmptyString
  | String c s' => String (lower_code_unit c) (toLowerCase s')
  end.

(** [s.includes(t)]: [t] occurs in [s] at some position. *)
Fixpoint includes (s t : string) : bool :=
  String.prefix t s
  || match s with
     | EmptyString => false
     | String _ s' => includes s' t
     end.

(** [if (groupId)]: [undefined] and the empty string are falsy. *)
Definition truthy_string (s : option string) : bool :=
  match s with
  | Some s => negb (String.eqb s EmptyString)
  | None => false
  end.

Definition matches_search (searchTerm : string) (tab : Tab) : bool :=
  includes (toLowerCase (tab_title tab)) (toLowerCase searchTerm)
  || includes (toLowerCase (tab_url tab)) (toLowerCase searchTerm).

Definition searchTabs (db : Database) (searchTerm : string)
    (groupId : option string) : Promise (list Tab) :=
  if truthy_string groupId then
    let tabs :=
      js_or (index_getAll (λ t, VString (tab_groupId t))
                          (VString (default EmptyString groupId)) (tabs db)) [] in
    Resolved (filter (λ tab, matches_search searchTerm tab = true) tabs)
  else
    let tabs := js_or (getAll (tabs db)) [] in
    Resolved (filter (λ tab, matches_search searchTerm tab = true) tabs).

(** ** The trash, newest first *)

(** [allItems.sort((a, b) => b.deletedAt - a.deletedAt)]: [sort] is
    stable, so the result is the one list that is ordered by the
    comparison and keeps items of equal date in their order. *)
Fixpoint insert_by_date (item : DeletedItem) (sorted : list DeletedItem)
    : list DeletedItem :=
  match sorted with
  | [] => [item]
  | other :: rest =>
      if (di_deletedAt item <? di_deletedAt other)%Z
      then other :: insert_by_date item rest
      else item :: other :: rest
  end.

Definition sort_newest_first (items : list DeletedItem) : list DeletedItem :=
  foldr insert_by_date [] items.

Definition getDeletedItemsSortedByDate (db : Database)
    : Promise (list DeletedItem) :=
  let allItems := js_or (getAll (deletedItems db)) [] in
  Resolved (sort_newest_first allItems).

(** ** testDatabase

    The ids are built from [Date.now()] and [Math.random()]; they are
    parameters here, and [clock n] is what the n-th [new Date()] of the
    run reads.  Each numbered step is a transaction of its own whose
    promise is awaited; a rejected step ends the run with that rejection
    ([catch (error) { ...; throw error }]). *)
Definition testWorkspace (clock : nat → Date) (testWorkspaceId : string)
    : Workspace :=
  {| ws_id := testWorkspaceId; ws_name := "Test Workspace";
     ws_isDefault := false;
     ws_createdAt := clock 0%nat; ws_lastAccessedAt := clock 1%nat |}.

Definition renamed (readWorkspace : Workspace) : Workspace :=
  {| ws_id := ws_id readWorkspace; ws_name := "Updated Test Workspace";
     ws_isDefault := ws_isDefault readWorkspace;
     ws_createdAt := ws_createdAt readWorkspace;
     ws_lastAccessedAt := ws_lastAccessedAt readWorkspace |}.

Definition testGroup (clock : nat → Date) (testGroupId testWorkspaceId : string)
    : TabGroup :=
  {| tg_id := testGroupId; tg_workspaceId := testWorkspaceId;
     tg_name := "Test Tab Group"; tg_icon := EmptyString; tg_position := 0;
     tg_isArchived := false; tg_archivedAt := None;
     tg_createdAt := clock 2%nat |}.

Definition testTab (clock : nat → Date) (testTabId testGroupId : string) : Tab :=
  {| tab_id := testTabId; tab_groupId := testGroupId;
     tab_url := "https://example.com"; tab_title := "Test Tab";
     tab_favicon := "https://example.com/favicon.ico"; tab_position := 0;
     tab_isArchived := false; tab_archivedAt := None;
     tab_createdAt := clock 3%nat |}.

Definition testDatabase (clock : nat → Date)
    (testWorkspaceId testGroupId testTabId : string) (db : Database)
    : Promise unit * Database :=
  (* 2. CREATE - Test creating a workspace *)
  match add ws_id no_unique_index (workspaces db)
            (testWorkspace clock testWorkspaceId) with
  | Failure error => (Rejected (Thrown error), db)
  | Success s =>
  let db := with_workspaces db s in
  (* 3. READ - Test reading the workspace *)
  match get (workspaces db) testWorkspaceId with
  | None =>
      (* 4. the spread of [undefined] has no [id]: [put] throws *)
      (Rejected (Thrown DataError), db)
  | Some readWorkspace =>
  (* 4. UPDATE - Test updating the workspace *)
  match put ws_id no_unique_index (workspaces db) (renamed readWorkspace) with
  | Failure error => (Rejected (Thrown error), db)
  | Success s =>
  let db := with_workspaces db s in
  (* 5. Test TabGroup creation *)
  match add tg_id workspaceId_position (tabGroups db)
            (testGroup clock testGroupId testWorkspaceId) with
  | Failure error => (Rejected (Thrown error), db)
  | Success s =>
  let db := with_tabGroups db s in
  (* 6. Test Tab creation *)
  match add tab_id groupId_position (tabs db)
            (testTab clock testTabId testGroupId) with
  | Failure error => (Rejected (Thrown error), db)
  | Success s =>
  let db := with_tabs db s in
  (* 7. CLEANUP - Remove all test data *)
  (Resolved tt,
   {| workspaces := delete_key (workspaces db) testWorkspaceId;
      tabGroups := delete_key (tabGroups db) testGroupId;
      tabs := delete_key (tabs db) testTabId;
      deletedItems := deletedItems db |})
  end end end end end.

(** ** Fixtures *)
Module Fixture.
Definition clock (n : nat) : Date := Sample.now + Z.of_nat n.

(** A database built by the functions themselves. *)
Definition built : Database :=
  run (CreateTab (Sample.tab "t2" "g1" 1))
   (run (CreateTab (Sample.tab "t1" "g1" 0))
    (run (CreateTabGroup (Sample.group "g2" "w1" 1 false))
     (run (CreateTabGroup (Sample.group "g1" "w1" 0 false))
      (run (CreateWorkspace Sample.home) fresh)))).
End Fixture.

(** What [getTabCount(groupId)] counts: a tab that is in the [groupId]
    index under [groupId] and passes the filter [!tab.isArchived]. *)
Definition counted (groupId : string) (t : Tab) : Prop :=
  negb (tab_isArchived t) = true
  ∧ valid_key (VString (tab_groupId t)) = true
  ∧ VString (tab_groupId t) = VString groupId.

#[export] Instance counted_dec groupId t : Decision (counted groupId t).
Proof. unfold counted. apply _. Defined.

(** A listing of a store: each stored record once, by ascending id. *)
Definition listed_in_id_order {A} (id : A → string) (s : gmap string A)
    (l : list A) : Prop :=
  (∀ r, r ∈ l ↔ ∃ k, s !! k = Some r)
  ∧ NoDup (id <$> l)
  ∧ Sorted (λ a b, String.leb (id a) (id b) = true) l
  ∧ length l = size s.

Module Disk.
(** A version 2 database: groups under a global unique [position] index. *)
Definition version2 : StoredDatabase :=
  {| sd_version := 2;
     sd_stores :=
       {| st_workspaces := None;
          st_tabGroups := Some
            {| os_keyPath := "id";
               os_indexes := [ index "position" ["position"] true ];
               os_records := {[ "g1" := Sample.group "g1" "w1" 0 false ]} |};
          st_tabs := Some
            {| os_keyPath := "id";
               os_indexes := [ index "groupId" ["groupId"] false ];
               os_records := {[ "t1" := Sample.tab "t1" "g1" 0 ]} |};
          st_deletedItems := None |} |}.

(** A version 3 database: the three stores version 3 creates, no
    workspaces store. *)
Definition version3 : StoredDatabase :=
  {| sd_version := 3;
     sd_stores :=
       {| st_workspaces := None;
          st_tabGroups := Some
            {| os_keyPath := "id"; os_indexes := tabGroupIndexes;
               os_records := {[ "g1" := Sample.group "g1" "w1" 0 false ]} |};
          st_tabs := Some
            {| os_keyPath := "id"; os_indexes := tabIndexes;
               os_records := {[ "t1" := Sample.tab "t1" "g1" 0 ]} |};
          st_deletedItems := Some (createObjectStore deletedItemIndexes) |} |}.

(** Only archived groups, with tabs that are not archived. *)
Definition only_archived : Database :=
  {| workspaces := {[ "w1" := Sample.home ]};
     tabGroups := {[ "g2" := Sample.group "g2" "w1" 1 true ]};
     tabs := list_to_map [("t4", Sample.tab "t4" "g2" 0);
                          ("t5", Sample.tab "t5" "g2" 1)];
     deletedItems := ∅ |}.
End Disk.
(** * Properties *)

(** ** The engine's stores *)
Section StoreFacts.
Context {A : Type}.
Variable keyPath : A → string.
Variable unique : A → A → bool.

Lemma elem_of_entries (s : gmap string A) k r :
  (k, r) ∈ entries s ↔ s !! k = Some r.
Proof.
  unfold entries. rewrite merge_sort_Permutation. apply elem_of_map_to_list.
Qed.

Lemma elem_of_getAll (s : gmap string A) r :
  r ∈ getAll s ↔ ∃ k, s !! k = Some r.
Proof.
  unfold getAll. rewrite list_elem_of_fmap. split.
  - intros [[k r'] [-> Hin]]. exists k. by apply elem_of_entries.
  - intros [k Hk]. exists (k, r). split; [done|]. by apply elem_of_entries.
Qed.

Lemma length_getAll (s : gmap string A) : length (getAll s) = size s.
Proof.
  unfold getAll, entries. rewrite length_fmap, merge_sort_Permutation.
  by rewrite length_map_to_list.
Qed.

Lemma collides_false (s : gmap string A) r :
  collides keyPath unique s r = false ↔
  ∀ k r', s !! k = Some r' → k ≠ keyPath r → unique r' r = false.
Proof.
  unfold collides. split.
  - intros Hex k r' Hk Hne.
    destruct (unique r' r) eqn:Hu; [|done].
    assert (existsb (λ kv, negb (String.eqb kv.1 (keyPath r)) && unique kv.2 r)
              (map_to_list s) = true) as Habs; [|congruence].
    apply existsb_exists. exists (k, r'). split.
    + apply list_elem_of_In. by apply elem_of_map_to_list.
    + simpl. rewrite Hu. apply String.eqb_neq in Hne. by rewrite Hne.
  - intros Hall. apply not_true_iff_false. intros Hex.
    apply existsb_exists in Hex as [[k r'] [Hin Hc]].
    apply list_elem_of_In, elem_of_map_to_list in Hin. simpl in Hc.
    apply andb_true_iff in Hc as [Hne Hu].
    apply negb_true_iff, String.eqb_neq in Hne.
    rewrite (Hall k r' Hin Hne) in Hu. done.
Qed.
End StoreFacts.

(** ** Restore *)

(** Steps 4 and 5 as restoreDeletedItem reaches them: the transaction is
    no longer active and the [add] throws. *)
Lemma proceed_on_inactive db id item :
  proceed_with_restoration (returned_to_event_loop (transaction db)) db id item
  = (Rejected (Thrown TransactionInactiveError), db).
Proof. reflexivity. Qed.

Lemma retention_cutoff now deletedAt :
  isWithinRetentionPeriod now deletedAt = true ↔ now - 1209600000 < deletedAt.
Proof.
  unfold isWithinRetentionPeriod. rewrite Z.gtb_ltb, Z.ltb_lt. lia.
Qed.

Lemma restore_refuses_expired now db id item :
  deletedItems db !! id = Some item →
  isWithinRetentionPeriod now (di_deletedAt item) = false →
  restoreDeletedItem now db id =
    (Rejected (Error "Item has exceeded 14-day retention period and cannot be restored"), db).
Proof.
  intros Hitem Hout. unfold restoreDeletedItem, get. simpl.
  by rewrite Hitem, Hout.
Qed.

(** C1 (order of the restore checks). For a tombstone that exists:
    past retention, the restore is rejected for its age, whatever else is
    wrong with it; within retention with its id already in the store of
    its type, it is rejected for the id conflict; within retention and
    conflict-free, a tab group (a tab) whose workspaceId (groupId) is not
    in the workspace (tab group) store is rejected with the message that
    names this parent id; a workspace tombstone is rejected by none of the
    checks. *)
Theorem restore_checks_in_order now db id item :
  deletedItems db !! id = Some item →
  (isWithinRetentionPeriod now (di_deletedAt item) = false →
     restoreDeletedItem now db id =
     (Rejected (Error "Item has exceeded 14-day retention period and cannot be restored"), db))
  ∧ (isWithinRetentionPeriod now (di_deletedAt item) = true →
     checkIdConflict db (di_id item) (di_type item) = true →
     restoreDeletedItem now db id =
     (Rejected (Error ("Cannot restore " +:+ type_text (di_type item) +:+ ": ID "
                       +:+ di_id item +:+ " already exists")), db))
  ∧ (∀ g, isWithinRetentionPeriod now (di_deletedAt item) = true →
     checkIdConflict db (di_id item) (di_type item) = false →
     di_data item = OfTabGroup g →
     workspaces db !! tg_workspaceId g = None →
     restoreDeletedItem now db id =
     (Rejected (Error ("Cannot restore tab group: parent workspace "
                       +:+ tg_workspaceId g +:+ " does not exist")), db))
  ∧ (∀ t, isWithinRetentionPeriod now (di_deletedAt item) = true →
     checkIdConflict db (di_id item) (di_type item) = false →
     di_data item = OfTab t →
     tabGroups db !! tab_groupId t = None →
     restoreDeletedItem now db id =
     (Rejected (Error ("Cannot restore tab: parent tab group "
                       +:+ tab_groupId t +:+ " does not exist")), db))
  ∧ (∀ w, isWithinRetentionPeriod now (di_deletedAt item) = true →
     checkIdConflict db (di_id item) (di_type item) = false →
     di_data item = OfWorkspace w →
     ∀ message, (restoreDeletedItem now db id).1 ≠ Rejected (Error message)).
Proof.
  intros Hitem. split; [by apply restore_refuses_expired|].
  unfold restoreDeletedItem, get. simpl. rewrite Hitem.
  repeat split.
  - intros -> ->. reflexivity.
  - intros g -> -> Hdata Hparent. simpl. rewrite Hdata.
    unfold validateWorkspaceExists, get. rewrite Hparent. reflexivity.
  - intros t -> -> Hdata Hparent. simpl. rewrite Hdata.
    unfold validateTabGroupExists, get. rewrite Hparent. reflexivity.
  - intros w -> -> Hdata message. simpl. rewrite Hdata.
    rewrite proceed_on_inactive. discriminate.
Qed.

(** The writes of a restore never reach the stores: by the time the
    awaited look-ups are done the transaction has committed. *)
Lemma restoreDeletedItem_leaves_database now db id :
  (restoreDeletedItem now db id).2 = db
  ∧ ∀ b, (restoreDeletedItem now db id).1 ≠ Resolved b.
Proof.
  unfold restoreDeletedItem, get. simpl.
  destruct (deletedItems db !! id) as [item|]; [|by split].
  destruct (isWithinRetentionPeriod _ _); simpl; [|by split].
  destruct (checkIdConflict _ _ _); [by split|].
  destruct (di_data item) as [w|g|t]; rewrite ?proceed_on_inactive.
  - by split.
  - destruct (validateWorkspaceExists _ _); simpl; by split.
  - destruct (validateTabGroupExists _ _); simpl; by split.
Qed.

Lemma restore_checks_in_order_witness :
  restoreDeletedItem Sample.now Sample.trashed "t1" =
    (Rejected (Error "Item has exceeded 14-day retention period and cannot be restored"),
     Sample.trashed)
  ∧ restoreDeletedItem Sample.now Sample.trashed "g1" =
    (Rejected (Error "Cannot restore tabGroup: ID g1 already exists"), Sample.trashed)
  ∧ restoreDeletedItem Sample.now Sample.trashed "g7" =
    (Rejected (Error "Cannot restore tab group: parent workspace wX does not exist"),
     Sample.trashed)
  ∧ restoreDeletedItem Sample.now Sample.trashed "t7" =
    (Rejected (Error "Cannot restore tab: parent tab group gX does not exist"),
     Sample.trashed)
  ∧ ∀ message,
      (restoreDeletedItem Sample.now Sample.trashed "w7").1 ≠ Rejected (Error message).
Proof.
  split; [|split; [|split; [|split]]].
  - apply (proj1 (restore_checks_in_order Sample.now Sample.trashed "t1"
      (Sample.tombstone "t1" (OfTab (Sample.tab "t1" "gX" 0))
         (Sample.now - 15 * Sample.day))
      ltac:(vm_compute; reflexivity))).
    vm_compute; reflexivity.
  - apply (proj1 (proj2 (restore_checks_in_order Sample.now Sample.trashed "g1"
      (Sample.tombstone "g1" (OfTabGroup (Sample.group "g1" "wX" 3 false))
         (Sample.now - Sample.day))
      ltac:(vm_compute; reflexivity))));
      vm_compute; reflexivity.
  - apply (proj1 (proj2 (proj2
      (restore_checks_in_order Sample.now Sample.trashed "g7"
         (Sample.tombstone "g7" (OfTabGroup (Sample.group "g7" "wX" 3 false))
            (Sample.now - Sample.day))
         ltac:(vm_compute; reflexivity))))
      (Sample.group "g7" "wX" 3 false));
      vm_compute; reflexivity.
  - apply (proj1 (proj2 (proj2 (proj2
      (restore_checks_in_order Sample.now Sample.trashed "t7"
         (Sample.tombstone "t7" (OfTab (Sample.tab "t7" "gX" 0))
            (Sample.now - Sample.day))
         ltac:(vm_compute; reflexivity)))))
      (Sample.tab "t7" "gX" 0));
      vm_compute; reflexivity.
  - apply (proj2 (proj2 (proj2 (proj2
      (restore_checks_in_order Sample.now Sample.trashed "w7"
         (Sample.tombstone "w7" (OfWorkspace
            {| ws_id := "w7"; ws_name := "Work"; ws_isDefault := false;
               ws_createdAt := 0; ws_lastAccessedAt := 0 |})
            (Sample.now - Sample.day))
         ltac:(vm_compute; reflexivity)))))
      {| ws_id := "w7"; ws_name := "Work"; ws_isDefault := false;
         ws_createdAt := 0; ws_lastAccessedAt := 0 |});
      vm_compute; reflexivity.
Defined.

(** What steps 4 and 5 do when they are placed on a transaction that is
    still active and the store accepts the snapshot: the snapshot is the
    record under its id and the tombstone is gone. *)
Lemma restoration_on_active_transaction db id item d' :
  add_snapshot db (di_data item) = Success d' →
  proceed_with_restoration (transaction db) db id item =
    (Resolved true, with_deletedItems d' (delete_key (deletedItems d') id))
  ∧ deletedItems (with_deletedItems d' (delete_key (deletedItems d') id)) !! id = None
  ∧ match di_data item with
    | OfWorkspace w => workspaces d' !! ws_id w = Some w
    | OfTabGroup g => tabGroups d' !! tg_id g = Some g
    | OfTab t => tabs d' !! tab_id t = Some t
    end.
Proof.
  intros Hadd. unfold proceed_with_restoration, place. simpl. rewrite Hadd.
  split; [done|]. split.
  - simpl. unfold delete_key. apply lookup_delete_eq.
  - unfold add_snapshot, add in Hadd.
    destruct (di_data item) as [w|g|t].
    + destruct (workspaces db !! ws_id w); [done|].
      destruct (collides _ _ _ _); [done|].
      injection Hadd as <-. simpl. apply lookup_insert_eq.
    + destruct (tabGroups db !! tg_id g); [done|].
      destruct (collides _ _ _ _); [done|].
      injection Hadd as <-. simpl. apply lookup_insert_eq.
    + destruct (tabs db !! tab_id t); [done|].
      destruct (collides _ _ _ _); [done|].
      injection Hadd as <-. simpl. apply lookup_insert_eq.
Qed.

(** C2 (restore round trip). On the sample trash the tombstone w7 is one
    day old, its id is free in the workspace store and a workspace has no
    parent to check: all three checks pass.  The restore is then rejected
    with [TransactionInactiveError]; no workspace w7 is inserted and the
    tombstone stays in the trash. *)
Example restore_of_valid_tombstone_is_rejected :
  (∃ item, deletedItems Sample.trashed !! "w7" = Some item
     ∧ isWithinRetentionPeriod Sample.now (di_deletedAt item) = true
     ∧ checkIdConflict Sample.trashed (di_id item) (di_type item) = false
     ∧ di_type item = TypeWorkspace)
  ∧ restoreDeletedItem Sample.now Sample.trashed "w7"
    = (Rejected (Thrown TransactionInactiveError), Sample.trashed)
  ∧ workspaces (restoreDeletedItem Sample.now Sample.trashed "w7").2 !! "w7" = None
  ∧ is_Some (deletedItems (restoreDeletedItem Sample.now Sample.trashed "w7").2 !! "w7").
Proof.
  split; [|split; [|split]].
  - eexists. split; [vm_compute; reflexivity|]. by vm_compute.
  - by vm_compute.
  - by vm_compute.
  - vm_compute. eauto.
Qed.

(** C4 (retention boundary). A tombstone deleted more than 14 days ago is
    refused by restoreDeletedItem for its age and is listed by
    getExpiredDeletedItems; one deleted 13 days ago passes the retention
    check, is not refused for its age and is not listed.  In general a
    tombstone is listed as expired exactly when the restore refuses it for
    its age. *)
Theorem retention_boundary now db id item :
  deletedItems db !! id = Some item →
  (di_deletedAt item < now - 14 * (24 * 60 * 60 * 1000) →
     restoreDeletedItem now db id =
       (Rejected (Error "Item has exceeded 14-day retention period and cannot be restored"), db)
     ∧ ∃ expired, getExpiredDeletedItems now db = Resolved expired ∧ item ∈ expired)
  ∧ (di_deletedAt item = now - 13 * (24 * 60 * 60 * 1000) →
     isWithinRetentionPeriod now (di_deletedAt item) = true
     ∧ (restoreDeletedItem now db id).1 ≠
         Rejected (Error "Item has exceeded 14-day retention period and cannot be restored")
     ∧ ∃ expired, getExpiredDeletedItems now db = Resolved expired ∧ item ∉ expired)
  ∧ (∀ expired, getExpiredDeletedItems now db = Resolved expired →
     (item ∈ expired ↔
      (restoreDeletedItem now db id).1 =
        Rejected (Error "Item has exceeded 14-day retention period and cannot be restored"))).
Proof.
  intros Hitem.
  assert (Hlisted : ∀ expired, getExpiredDeletedItems now db = Resolved expired →
            (item ∈ expired ↔ isWithinRetentionPeriod now (di_deletedAt item) = false)).
  { intros expired Heq. injection Heq as <-. unfold js_or. simpl.
    rewrite list_elem_of_filter, elem_of_getAll, negb_true_iff.
    split; [by intros [? _]|intros Hout; split; [done|by exists id]]. }
  assert (Hrefused : (restoreDeletedItem now db id).1 =
            Rejected (Error "Item has exceeded 14-day retention period and cannot be restored")
            ↔ isWithinRetentionPeriod now (di_deletedAt item) = false).
  { unfold restoreDeletedItem, get. simpl. rewrite Hitem.
    destruct (isWithinRetentionPeriod _ _); simpl; [|done].
    split; [|done]. destruct (checkIdConflict _ _ _); [discriminate|].
    destruct (di_data item) as [w|g|t]; rewrite ?proceed_on_inactive.
    - discriminate.
    - destruct (validateWorkspaceExists _ _); simpl; discriminate.
    - destruct (validateTabGroupExists _ _); simpl; discriminate. }
  split; [|split].
  - intros Hold.
    assert (isWithinRetentionPeriod now (di_deletedAt item) = false) as Hout.
    { apply not_true_iff_false. rewrite retention_cutoff. lia. }
    split.
    + by apply (restore_refuses_expired now db id item).
    + eexists. split; [reflexivity|]. by apply Hlisted.
  - intros Hrecent.
    assert (isWithinRetentionPeriod now (di_deletedAt item) = true) as Hin.
    { rewrite retention_cutoff. lia. }
    split; [done|]. split.
    + rewrite Hrefused. congruence.
    + eexists. split; [reflexivity|]. rewrite Hlisted by reflexivity. congruence.
  - intros expired Hexp. rewrite (Hlisted _ Hexp). symmetry. apply Hrefused.
Qed.

Lemma retention_boundary_witness :
  (restoreDeletedItem Sample.now Sample.trashed "t1" =
     (Rejected (Error "Item has exceeded 14-day retention period and cannot be restored"),
      Sample.trashed)
   ∧ ∃ expired, getExpiredDeletedItems Sample.now Sample.trashed = Resolved expired
       ∧ Sample.tombstone "t1" (OfTab (Sample.tab "t1" "gX" 0))
           (Sample.now - 15 * Sample.day) ∈ expired)
  ∧ (isWithinRetentionPeriod Sample.now (Sample.now - 13 * Sample.day) = true
     ∧ (restoreDeletedItem Sample.now Sample.trashed "t8").1 ≠
         Rejected (Error "Item has exceeded 14-day retention period and cannot be restored")
     ∧ ∃ expired, getExpiredDeletedItems Sample.now Sample.trashed = Resolved expired
       ∧ Sample.tombstone "t8" (OfTab (Sample.tab "t8" "g1" 5))
           (Sample.now - 13 * Sample.day) ∉ expired).
Proof.
  split.
  - apply (proj1 (retention_boundary Sample.now Sample.trashed "t1"
             (Sample.tombstone "t1" (OfTab (Sample.tab "t1" "gX" 0))
                (Sample.now - 15 * Sample.day)) ltac:(vm_compute; reflexivity))).
    vm_compute; reflexivity.
  - apply (proj1 (proj2 (retention_boundary Sample.now Sample.trashed "t8"
             (Sample.tombstone "t8" (OfTab (Sample.tab "t8" "g1" 5))
                (Sample.now - 13 * Sample.day)) ltac:(vm_compute; reflexivity)))).
    vm_compute; reflexivity.
Defined.

Lemma with_workspaces_same db : with_workspaces db (workspaces db) = db.
Proof. by destruct db. Qed.
Lemma with_tabGroups_same db : with_tabGroups db (tabGroups db) = db.
Proof. by destruct db. Qed.
Lemma with_tabs_same db : with_tabs db (tabs db) = db.
Proof. by destruct db. Qed.
Lemma with_deletedItems_same db : with_deletedItems db (deletedItems db) = db.
Proof. by destruct db. Qed.

Section CreateFacts.
Context {A : Type}.
Variable keyPath : A → string.
Variable unique : A → A → bool.
Variable Name name : string.

Lemma collides_true (s : gmap string A) r k r' :
  s !! k = Some r' → k ≠ keyPath r → unique r' r = true →
  collides keyPath unique s r = true.
Proof.
  intros Hk Hne Hu. apply not_false_iff_true. intros Hc.
  rewrite collides_false in Hc. rewrite (Hc k r' Hk Hne) in Hu. done.
Qed.

(** Whichever rule refuses the [add], the caller gets the same rejection
    and the store is as before. *)
Lemma create_record_refused (s : gmap string A) r :
  is_Some (s !! keyPath r) ∨ collides keyPath unique s r = true →
  create_record keyPath unique Name name s r =
    (Rejected (Error (Name +:+ " with ID '" +:+ keyPath r +:+ "' already exists")), s).
Proof.
  unfold create_record, add. intros [[r' ->]| Hc]; [done|].
  destruct (s !! keyPath r); [done|]. by rewrite Hc.
Qed.

Lemma create_record_accepted (s : gmap string A) r :
  s !! keyPath r = None → collides keyPath unique s r = false →
  create_record keyPath unique Name name s r = (Resolved tt, <[keyPath r := r]> s).
Proof. unfold create_record, add. by intros -> ->. Qed.
End CreateFacts.

(** Creating a group whose id or whose (workspaceId, position) is taken
    is rejected and leaves the database as it was. *)
Lemma createTabGroup_refused db g :
  is_Some (tabGroups db !! tg_id g)
  ∨ (∃ k g', tabGroups db !! k = Some g' ∧ k ≠ tg_id g
       ∧ tg_workspaceId g' = tg_workspaceId g ∧ tg_position g' = tg_position g) →
  createTabGroup db g =
    (Rejected (Error ("Tab group with ID '" +:+ tg_id g +:+ "' already exists")), db).
Proof.
  intros H. unfold createTabGroup, in_tabGroups.
  rewrite create_record_refused.
  - by rewrite with_tabGroups_same.
  - destruct H as [H|(k & g' & Hk & Hne & Hw & Hp)]; [by left|right].
    apply (collides_true _ _ _ _ k g' Hk Hne).
    unfold workspaceId_position. rewrite Hw, Hp, String.eqb_refl, Z.eqb_refl. done.
Qed.

(** C3 (duplicate on create). In [one_group] slot 0 of w1 is taken by g1
    and the id g2 is free; in [holds_g2] the id g2 is taken and slot 0 is
    free.  Creating group g2 at slot 0 of w1 is rejected in both, the
    database is unchanged in both, and the rejection is the same
    "Tab group with ID 'g2' already exists": the message of the position
    collision names the primary-key rule. *)
Example createTabGroup_one_message_for_both_rules :
  (tabGroups Sample.one_group !! "g2" = None
   ∧ createTabGroup Sample.one_group (Sample.group "g2" "w1" 0 false) =
       (Rejected (Error "Tab group with ID 'g2' already exists"), Sample.one_group))
  ∧ (is_Some (tabGroups Sample.holds_g2 !! "g2")
     ∧ collides tg_id workspaceId_position (tabGroups Sample.holds_g2)
         (Sample.group "g2" "w1" 0 false) = false
     ∧ createTabGroup Sample.holds_g2 (Sample.group "g2" "w1" 0 false) =
         (Rejected (Error "Tab group with ID 'g2' already exists"), Sample.holds_g2)).
Proof.
  split; [split|split; [|split]]; try (vm_compute; reflexivity).
  vm_compute. eauto.
Qed.

(** The count is 0 (no active group) or the query is rejected: [false] is
    not a key, so [IDBKeyRange.only(false)] throws. *)
Lemma getWorkSpaceCount_outcomes db workspaceId :
  getWorkSpaceCount db workspaceId = Resolved 0%nat
  ∨ getWorkSpaceCount db workspaceId =
      Rejected (ErrorWith "Failed to process group data: " DataError).
Proof.
  unfold getWorkSpaceCount.
  destruct (Nat.eqb _ 0); [by left|by right].
Qed.

(** C5 (workspace tab count). Workspace w1 has the active group g1 and the
    archived group g2, each with three non-archived tabs.  getAllTabs
    lists the six tabs and the count the specification describes is 3;
    getWorkSpaceCount does not return 3 but is rejected with
    "Failed to process group data: ...". *)
Example getWorkSpaceCount_on_two_groups_six_tabs :
  (∃ all, getAllTabs Sample.two_groups_six_tabs = Resolved all ∧ length all = 6%nat)
  ∧ activeWorkspaceTabCount Sample.two_groups_six_tabs "w1" = 3%nat
  ∧ getTabCount Sample.two_groups_six_tabs "g1" = Resolved 3%nat
  ∧ getWorkSpaceCount Sample.two_groups_six_tabs "w1" =
      Rejected (ErrorWith "Failed to process group data: " DataError).
Proof.
  split; [|split; [|split]]; [|vm_compute; reflexivity..].
  eexists. split; [reflexivity|]. vm_compute. reflexivity.
Qed.

(** *** The sweep *)

(** Every request runs one of the two handlers, so [completedDeletions]
    reaches the number of expired items and the promise resolves. *)
Lemma sweep_completes deleteFails items st :
  completedDeletions (foldl (sweep_request deleteFails) st items)
  = (completedDeletions st + length items)%nat.
Proof.
  revert st. induction items as [|item items IH]; intros st; simpl; [lia|].
  rewrite IH. unfold sweep_request.
  destruct (sw_aborted st || deleteFails (di_id item)); simpl; lia.
Qed.

Lemma sweep_without_failure items st :
  sw_aborted st = false →
  sw_aborted (foldl (sweep_request (λ _, false)) st items) = false
  ∧ deletedCount (foldl (sweep_request (λ _, false)) st items)
    = (deletedCount st + length items)%nat
  ∧ sw_store (foldl (sweep_request (λ _, false)) st items)
    = foldl (λ s item, delete (di_id item) s) (sw_store st) items.
Proof.
  revert st. induction items as [|item items IH]; intros st Hlive; simpl.
  - repeat split; [done|lia].
  - assert (sweep_request (λ _, false) st item =
      {| sw_store := delete (di_id item) (sw_store st);
         deletedCount := S (deletedCount st);
         completedDeletions := S (completedDeletions st);
         sw_aborted := false |}) as ->.
    { unfold sweep_request. by rewrite Hlive. }
    match goal with |- context [foldl _ ?st0 items] =>
      destruct (IH st0 eq_refl) as (Ha & Hc & Hs) end.
    rewrite Ha, Hc, Hs. simpl. split; [done|split; [lia|done]].
Qed.

Lemma lookup_foldl_delete (items : list DeletedItem) (s : gmap string DeletedItem) k :
  foldl (λ s item, delete (di_id item) s) s items !! k
  = if decide (k ∈ di_id <$> items) then None else s !! k.
Proof.
  revert s. induction items as [|item items IH]; intros s.
  - destruct (decide (k ∈ di_id <$> [])) as [H|_]; [|done].
    by apply elem_of_nil in H.
  - rewrite fmap_cons. cbn [foldl]. rewrite IH.
    destruct (decide (k ∈ di_id <$> items)) as [Hin|Hnin];
      destruct (decide (k ∈ di_id item :: (di_id <$> items))) as [Hc|Hc];
      rewrite elem_of_cons in Hc.
    + done.
    + exfalso. apply Hc. by right.
    + destruct Hc as [->|Hc]; [apply lookup_delete_eq|done].
    + apply lookup_delete_ne. intros Heq. apply Hc. left. by rewrite Heq.
Qed.

(** When no delete request fails the sweep removes the tombstones deleted
    more than 14 days ago, keeps the others and resolves with the number
    removed. *)
Lemma cleanup_without_failure now db :
  keyed di_id (deletedItems db) →
  (cleanupExpiredDeletedItems now (λ _, false) db).1 =
    Resolved (length (filter (λ item, di_deletedAt item < now - 14 * 24 * 60 * 60 * 1000)
                             (getAll (deletedItems db))))
  ∧ ∀ k, deletedItems (cleanupExpiredDeletedItems now (λ _, false) db).2 !! k =
      match deletedItems db !! k with
      | Some item =>
          if decide (di_deletedAt item < now - 14 * 24 * 60 * 60 * 1000)
          then None else Some item
      | None => None
      end.
Proof.
  intros Hkeyed. unfold cleanupExpiredDeletedItems.
  set (expired := filter _ (getAll (deletedItems db))).
  assert (Hexp : ∀ k, k ∈ di_id <$> expired ↔
            ∃ item, deletedItems db !! k = Some item
                    ∧ di_deletedAt item < now - 14 * 24 * 60 * 60 * 1000).
  { intros k. rewrite list_elem_of_fmap. unfold expired. split.
    - intros (item & -> & Hin). apply list_elem_of_filter in Hin as [Hold Hin].
      apply elem_of_getAll in Hin as [k Hk]. exists item.
      by rewrite (Hkeyed _ _ Hk).
    - intros (item & Hk & Hold). exists item. split; [by rewrite (Hkeyed _ _ Hk)|].
      apply list_elem_of_filter. split; [done|]. apply elem_of_getAll. eauto. }
  destruct (Nat.eqb (length expired) 0) eqn:Hnone.
  - apply Nat.eqb_eq in Hnone. simpl. split; [by rewrite Hnone|].
    intros k. destruct (deletedItems db !! k) as [item|] eqn:Hk; [|done].
    case_decide as Hold; [|done].
    assert (k ∈ di_id <$> expired) as Hin by (apply Hexp; eauto).
    apply length_zero_iff_nil in Hnone. rewrite Hnone in Hin.
    by apply elem_of_nil in Hin.
  - destruct (sweep_without_failure expired
                 {| sw_store := deletedItems db; deletedCount := 0;
                    completedDeletions := 0; sw_aborted := false |} eq_refl)
      as (Ha & Hc & Hs).
    simpl in *. rewrite Ha. simpl. split; [by rewrite Hc|].
    intros k. rewrite Hs, lookup_foldl_delete.
    destruct (deletedItems db !! k) as [item|] eqn:Hk.
    + repeat case_decide; try done.
      * apply Hexp in H as (item' & Hk' & Hold). congruence.
      * exfalso. apply H. apply Hexp. eauto.
    + case_decide; [done|]. done.
Qed.

(** C6 (expiry sweep). In [sweepable] the tombstones a and b are older
    than 14 days and c is one day old.  When the delete request for b
    fails, the sweep resolves with 1 but the database is unchanged: a,
    whose delete had succeeded, is back with the aborted transaction.
    With no failure the sweep resolves with 2 and leaves only c. *)
Example cleanup_with_a_failed_delete :
  cleanupExpiredDeletedItems Sample.now (String.eqb "b") Sample.sweepable
    = (Resolved 1%nat, Sample.sweepable)
  ∧ is_Some (deletedItems
      (cleanupExpiredDeletedItems Sample.now (String.eqb "b") Sample.sweepable).2 !! "a")
  ∧ (cleanupExpiredDeletedItems Sample.now (λ _, false) Sample.sweepable).1
    = Resolved 2%nat
  ∧ dom (deletedItems
      (cleanupExpiredDeletedItems Sample.now (λ _, false) Sample.sweepable).2)
    = {[ "c" ]}.
Proof.
  split; [|split; [|split]].
  - vm_compute; reflexivity.
  - vm_compute. eauto.
  - vm_compute; reflexivity.
  - vm_compute; reflexivity.
Qed.

(** *** Updates *)
Lemma spread_takes {V} (prior : V) (named : option V) :
  takes named prior (spread prior named).
Proof. by destruct named. Qed.

Lemma mergeWorkspace_merged prior updates :
  merged_Workspace prior updates (mergeWorkspace prior updates).
Proof. repeat split; apply spread_takes. Qed.

Lemma mergeTabGroup_merged prior updates :
  merged_TabGroup prior updates (mergeTabGroup prior updates).
Proof. repeat split; apply spread_takes. Qed.

Lemma mergeTab_merged prior updates :
  merged_Tab prior updates (mergeTab prior updates).
Proof. repeat split; apply spread_takes. Qed.

Lemma mergeDeletedItem_merged prior updates :
  merged_DeletedItem prior updates (mergeDeletedItem prior updates).
Proof. repeat split; apply spread_takes. Qed.

Section UpdateFacts.
Context {A P : Type}.
Variable keyPath : A → string.
Variable unique : A → A → bool.
Variable merge : A → P → A.
Variable Name name : string.

Lemma update_record_missing (s : gmap string A) id updates :
  s !! id = None →
  update_record keyPath unique merge Name name s id updates =
    (Rejected (Error (Name +:+ " with ID '" +:+ id +:+ "' not found")), s).
Proof. unfold update_record, get. by intros ->. Qed.

Lemma update_record_written (s : gmap string A) id updates existing :
  s !! id = Some existing →
  keyPath (merge existing updates) = id →
  collides keyPath unique s (merge existing updates) = false →
  update_record keyPath unique merge Name name s id updates =
    (Resolved tt, <[id := merge existing updates]> s).
Proof.
  unfold update_record, get, put. intros -> Hid ->. by rewrite Hid.
Qed.

Lemma update_record_refused (s : gmap string A) id updates existing :
  s !! id = Some existing →
  collides keyPath unique s (merge existing updates) = true →
  update_record keyPath unique merge Name name s id updates =
    (Rejected (ErrorWith ("Failed to update " +:+ name +:+ ": ") ConstraintError), s).
Proof. unfold update_record, get, put. by intros -> ->. Qed.

Lemma rewrite_record_written verb change (s : gmap string A) id existing :
  s !! id = Some existing →
  keyPath (change existing) = id →
  (∀ k r', s !! k = Some r' → k ≠ id → unique r' (change existing) = false) →
  rewrite_record keyPath unique Name name verb change s id =
    (Resolved tt, <[id := change existing]> s).
Proof.
  unfold rewrite_record, get, put. intros -> Hid Hfree.
  assert (collides keyPath unique s (change existing) = false) as ->.
  { apply collides_false. intros k r' Hk Hne. apply (Hfree k r' Hk). congruence. }
  by rewrite Hid.
Qed.
End UpdateFacts.

Lemma no_unique_index_never_collides {A} (keyPath : A → string)
    (s : gmap string A) r :
  collides keyPath no_unique_index s r = false.
Proof. apply collides_false. done. Qed.

Lemma group_slot_free db id g :
  ¬ slot_taken_by_other_group db id g → tg_id g = id →
  collides tg_id workspaceId_position (tabGroups db) g = false.
Proof.
  intros Hfree Hid. apply collides_false. intros k g' Hk Hne.
  apply not_true_iff_false. intros Hu. apply Hfree. exists k, g'.
  unfold workspaceId_position in Hu. apply andb_true_iff in Hu as [Hw Hp].
  apply String.eqb_eq in Hw. apply Z.eqb_eq in Hp. rewrite <- Hid. done.
Qed.

Lemma tab_slot_free db id t :
  ¬ slot_taken_by_other_tab db id t → tab_id t = id →
  collides tab_id groupId_position (tabs db) t = false.
Proof.
  intros Hfree Hid. apply collides_false. intros k t' Hk Hne.
  apply not_true_iff_false. intros Hu. apply Hfree. exists k, t'.
  unfold groupId_position in Hu. apply andb_true_iff in Hu as [Hw Hp].
  apply String.eqb_eq in Hw. apply Z.eqb_eq in Hp. rewrite <- Hid. done.
Qed.

(** C7 as amended (update). For each of the four stores: an update of an
    id that is not stored is rejected with "... not found" and changes
    nothing; an update of a stored record whose merge keeps the id and
    (for groups and tabs) takes no slot (parent, position) held by another
    record is resolved, and the record then stored under the id has every
    named field at its new value and every other field at its prior
    value. *)
Theorem update_merges db id :
  (∀ updates, workspaces db !! id = None →
     updateWorkspace db id updates =
       (Rejected (Error ("Workspace with ID '" +:+ id +:+ "' not found")), db))
  ∧ (∀ updates, tabGroups db !! id = None →
     updateTabGroup db id updates =
       (Rejected (Error ("Tab group with ID '" +:+ id +:+ "' not found")), db))
  ∧ (∀ updates, tabs db !! id = None →
     updateTab db id updates =
       (Rejected (Error ("Tab with ID '" +:+ id +:+ "' not found")), db))
  ∧ (∀ updates, deletedItems db !! id = None →
     updateDeletedItem db id updates =
       (Rejected (Error ("Deleted item with ID '" +:+ id +:+ "' not found")), db))
  ∧ (∀ updates prior, workspaces db !! id = Some prior →
     ws_id (mergeWorkspace prior updates) = id →
     ∃ new, updateWorkspace db id updates =
              (Resolved tt, with_workspaces db (<[id := new]> (workspaces db)))
            ∧ workspaces (updateWorkspace db id updates).2 !! id = Some new
            ∧ merged_Workspace prior updates new)
  ∧ (∀ updates prior, tabGroups db !! id = Some prior →
     tg_id (mergeTabGroup prior updates) = id →
     ¬ slot_taken_by_other_group db id (mergeTabGroup prior updates) →
     ∃ new, updateTabGroup db id updates =
              (Resolved tt, with_tabGroups db (<[id := new]> (tabGroups db)))
            ∧ tabGroups (updateTabGroup db id updates).2 !! id = Some new
            ∧ merged_TabGroup prior updates new)
  ∧ (∀ updates prior, tabs db !! id = Some prior →
     tab_id (mergeTab prior updates) = id →
     ¬ slot_taken_by_other_tab db id (mergeTab prior updates) →
     ∃ new, updateTab db id updates =
              (Resolved tt, with_tabs db (<[id := new]> (tabs db)))
            ∧ tabs (updateTab db id updates).2 !! id = Some new
            ∧ merged_Tab prior updates new)
  ∧ (∀ updates prior, deletedItems db !! id = Some prior →
     di_id (mergeDeletedItem prior updates) = id →
     ∃ new, updateDeletedItem db id updates =
              (Resolved tt, with_deletedItems db (<[id := new]> (deletedItems db)))
            ∧ deletedItems (updateDeletedItem db id updates).2 !! id = Some new
            ∧ merged_DeletedItem prior updates new).
Proof.
  repeat apply conj.
  - intros updates Hnone. unfold updateWorkspace, in_workspaces.
    rewrite update_record_missing by done. by rewrite with_workspaces_same.
  - intros updates Hnone. unfold updateTabGroup, in_tabGroups.
    rewrite update_record_missing by done. by rewrite with_tabGroups_same.
  - intros updates Hnone. unfold updateTab, in_tabs.
    rewrite update_record_missing by done. by rewrite with_tabs_same.
  - intros updates Hnone. unfold updateDeletedItem, in_deletedItems.
    rewrite update_record_missing by done. by rewrite with_deletedItems_same.
  - intros updates prior Hprior Hid. exists (mergeWorkspace prior updates).
    unfold updateWorkspace, in_workspaces.
    rewrite (update_record_written _ _ _ _ _ _ _ _ prior Hprior Hid)
      by apply no_unique_index_never_collides.
    simpl. split; [done|]. split; [apply lookup_insert_eq|].
    apply mergeWorkspace_merged.
  - intros updates prior Hprior Hid Hfree. exists (mergeTabGroup prior updates).
    unfold updateTabGroup, in_tabGroups.
    rewrite (update_record_written _ _ _ _ _ _ _ _ prior Hprior Hid)
      by (by apply (group_slot_free db id)).
    simpl. split; [done|]. split; [apply lookup_insert_eq|].
    apply mergeTabGroup_merged.
  - intros updates prior Hprior Hid Hfree. exists (mergeTab prior updates).
    unfold updateTab, in_tabs.
    rewrite (update_record_written _ _ _ _ _ _ _ _ prior Hprior Hid)
      by (by apply (tab_slot_free db id)).
    simpl. split; [done|]. split; [apply lookup_insert_eq|].
    apply mergeTab_merged.
  - intros updates prior Hprior Hid. exists (mergeDeletedItem prior updates).
    unfold updateDeletedItem, in_deletedItems.
    rewrite (update_record_written _ _ _ _ _ _ _ _ prior Hprior Hid)
      by apply no_unique_index_never_collides.
    simpl. split; [done|]. split; [apply lookup_insert_eq|].
    apply mergeDeletedItem_merged.
Qed.

Lemma slot_taken_by_other_group_collides db id g :
  tg_id g = id →
  slot_taken_by_other_group db id g →
  collides tg_id workspaceId_position (tabGroups db) g = true.
Proof.
  intros Hid (k & g' & Hk & Hne & Hw & Hp).
  apply (collides_true _ _ _ _ k g' Hk); [by rewrite Hid|].
  unfold workspaceId_position. by rewrite Hw, Hp, String.eqb_refl, Z.eqb_refl.
Qed.

Lemma update_merges_witness :
  updateWorkspace fresh "w1" Sample.rename_workspace =
    (Rejected (Error "Workspace with ID 'w1' not found"), fresh)
  ∧ ∃ new,
      updateTabGroup Sample.two_groups "g2" Sample.rename_group =
        (Resolved tt,
         with_tabGroups Sample.two_groups
           (<["g2" := new]> (tabGroups Sample.two_groups)))
      ∧ tabGroups (updateTabGroup Sample.two_groups "g2" Sample.rename_group).2
          !! "g2" = Some new
      ∧ merged_TabGroup (Sample.group "g2" "w1" 1 false) Sample.rename_group new.
Proof.
  split.
  - apply (proj1 (update_merges fresh "w1") Sample.rename_workspace).
    vm_compute; reflexivity.
  - apply (proj1 (proj2 (proj2 (proj2 (proj2 (proj2
             (update_merges Sample.two_groups "g2"))))))
             Sample.rename_group (Sample.group "g2" "w1" 1 false)).
    + vm_compute; reflexivity.
    + vm_compute; reflexivity.
    + intros Htaken.
      apply slot_taken_by_other_group_collides in Htaken; [|vm_compute; reflexivity].
      vm_compute in Htaken. discriminate.
Defined.

(** C7, counterexample. Groups g1 and g2 of workspace w1 sit at slots 0
    and 1.  updateTabGroup("g2", {position: 0}) finds g2, but the [put] of
    the merged record is refused by the unique index
    [workspaceId_position]: the update is rejected and g2 keeps position
    1, although [position] was named with the value 0.  Likewise
    updateWorkspace("w1", {id: "w2"}) resolves and files the merged record
    under w2: the record under w1 keeps the id w1. *)
Lemma update_refused_by_unique_index :
  tabGroups Sample.two_groups !! "g2" = Some (Sample.group "g2" "w1" 1 false)
  ∧ pg_position Sample.move_to_slot_0 = Some 0
  ∧ updateTabGroup Sample.two_groups "g2" Sample.move_to_slot_0 =
      (Rejected (ErrorWith "Failed to update tab group: " ConstraintError),
       Sample.two_groups)
  ∧ tg_position <$>
      tabGroups (updateTabGroup Sample.two_groups "g2" Sample.move_to_slot_0).2 !! "g2"
    = Some 1
  ∧ (¬ ∃ new,
        tabGroups (updateTabGroup Sample.two_groups "g2" Sample.move_to_slot_0).2
          !! "g2" = Some new
        ∧ merged_TabGroup (Sample.group "g2" "w1" 1 false) Sample.move_to_slot_0 new)
  ∧ (updateWorkspace Sample.one_group "w1" Sample.change_id_to_w2).1 = Resolved tt
  ∧ workspaces (updateWorkspace Sample.one_group "w1" Sample.change_id_to_w2).2
      !! "w1" = Some Sample.home.
Proof.
  split; [|split; [|split; [|split; [|split; [|split]]]]];
    try (vm_compute; reflexivity).
  intros (new & Hnew & Hmerged).
  assert (tg_position new = 0) as Hzero by apply Hmerged.
  assert (tg_position <$>
            tabGroups (updateTabGroup Sample.two_groups "g2" Sample.move_to_slot_0).2
              !! "g2" = Some 1) as Hone by (vm_compute; reflexivity).
  rewrite Hnew in Hone. simpl in Hone. congruence.
Qed.

(** *** Absent ids *)

(** C8 as amended (get and delete of an absent id). For every store and
    every id that is not in it, the get function resolves with [null] and
    the delete function resolves, and the database is unchanged. *)
Theorem get_and_delete_of_absent_id db id :
  (workspaces db !! id = None →
     getWorkspace db id = Resolved None
     ∧ deleteWorkspace db id = (Resolved tt, db))
  ∧ (tabGroups db !! id = None →
     getTabGroup db id = Resolved None
     ∧ deleteTabGroup db id = (Resolved tt, db))
  ∧ (tabs db !! id = None →
     getTab db id = Resolved None
     ∧ deleteTab db id = (Resolved tt, db))
  ∧ (deletedItems db !! id = None →
     getDeletedItem db id = Resolved None
     ∧ deleteDeletedItem db id = (Resolved tt, db)
     ∧ permanentlyDeleteItem db id = (Resolved true, db)).
Proof.
  repeat apply conj; intros Hnone; repeat apply conj.
  - unfold getWorkspace, get_record, get. by rewrite Hnone.
  - unfold deleteWorkspace, in_workspaces, delete_record, delete_key.
    by rewrite delete_id, with_workspaces_same.
  - unfold getTabGroup, get_record, get. by rewrite Hnone.
  - unfold deleteTabGroup, in_tabGroups, delete_record, delete_key.
    by rewrite delete_id, with_tabGroups_same.
  - unfold getTab, get_record, get. by rewrite Hnone.
  - unfold deleteTab, in_tabs, delete_record, delete_key.
    by rewrite delete_id, with_tabs_same.
  - unfold getDeletedItem, get_record, get. by rewrite Hnone.
  - unfold deleteDeletedItem, in_deletedItems, delete_record, delete_key.
    by rewrite delete_id, with_deletedItems_same.
  - unfold permanentlyDeleteItem, delete_key.
    by rewrite delete_id, with_deletedItems_same.
Qed.

Lemma get_and_delete_of_absent_id_witness :
  getWorkspace Sample.one_group "w9" = Resolved None
  ∧ deleteWorkspace Sample.one_group "w9" = (Resolved tt, Sample.one_group).
Proof.
  apply (proj1 (get_and_delete_of_absent_id Sample.one_group "w9")).
  vm_compute; reflexivity.
Defined.

(** C8, counterexample. The workspace store of [one_group] has no record
    w9: getWorkspace("w9") is not rejected, it resolves with [null];
    deleteWorkspace("w9") is not rejected either. *)
Lemma get_and_delete_of_absent_id_are_not_rejected :
  workspaces Sample.one_group !! "w9" = None
  ∧ is_rejected (getWorkspace Sample.one_group "w9") = false
  ∧ getWorkspace Sample.one_group "w9" = Resolved None
  ∧ is_rejected (deleteWorkspace Sample.one_group "w9").1 = false
  ∧ deleteWorkspace Sample.one_group "w9" = (Resolved tt, Sample.one_group).
Proof. repeat split; vm_compute; reflexivity. Qed.

(** *** Listings of the trash *)

(** C9 (the two listings). getDeletedItems and getAllDeletedItems resolve
    with the same sequence of tombstones, whatever the trash holds. *)
Theorem getDeletedItems_getAllDeletedItems db :
  getDeletedItems db = getAllDeletedItems db
  ∧ ∃ items, getDeletedItems db = Resolved items
             ∧ ∀ item, item ∈ items ↔ ∃ id, deletedItems db !! id = Some item.
Proof.
  split; [reflexivity|].
  exists (getAll (deletedItems db)). split; [reflexivity|].
  intros item. apply elem_of_getAll.
Qed.

(** *** The invariants hold of every store the engine builds *)
Section InvariantFacts.
Context {A : Type}.
Variable keyPath : A → string.
Variable unique : A → A → bool.
Lemma keyedb_keyed (s : gmap string A) : keyedb keyPath s = true → keyed keyPath s.
Proof.
  unfold keyedb. rewrite forallb_forall. intros Hall k r Hk.
  specialize (Hall (k, r)). simpl in Hall. apply String.eqb_eq, Hall.
  apply list_elem_of_In. by apply elem_of_map_to_list.
Qed.

Lemma index_uniqueb_index_unique (s : gmap string A) :
  index_uniqueb unique s = true → index_unique unique s.
Proof.
  unfold index_uniqueb. rewrite forallb_forall.
  intros Hall k1 r1 k2 r2 Hk1 Hk2 Hne.
  specialize (Hall (k1, r1)). rewrite forallb_forall in Hall.
  assert (In (k1, r1) (map_to_list s)) as Hin1
    by (apply list_elem_of_In; by apply elem_of_map_to_list).
  assert (In (k2, r2) (map_to_list s)) as Hin2
    by (apply list_elem_of_In; by apply elem_of_map_to_list).
  specialize (Hall Hin1 (k2, r2) Hin2). simpl in Hall.
  apply orb_true_iff in Hall as [Heq|Hu].
  - by apply String.eqb_eq in Heq.
  - by apply negb_true_iff in Hu.
Qed.

Lemma keyed_empty : keyed keyPath (∅ : gmap string A).
Proof. intros k r Hk. by rewrite lookup_empty in Hk. Qed.

Lemma index_unique_empty : index_unique unique (∅ : gmap string A).
Proof. intros k1 r1 k2 r2 Hk. by rewrite lookup_empty in Hk. Qed.

Lemma delete_keeps_invariants (s : gmap string A) key :
  keyed keyPath s → index_unique unique s →
  keyed keyPath (delete_key s key) ∧ index_unique unique (delete_key s key).
Proof.
  unfold delete_key. intros Hkeyed Huniq. split.
  - intros k r Hk. apply lookup_delete_Some in Hk as [_ Hk]. eauto.
  - intros k1 r1 k2 r2 Hk1 Hk2 Hne.
    apply lookup_delete_Some in Hk1 as [_ Hk1].
    apply lookup_delete_Some in Hk2 as [_ Hk2]. eauto.
Qed.

Hypothesis unique_sym : ∀ a b, unique a b = unique b a.

Lemma insert_keeps_invariants (s : gmap string A) r :
  collides keyPath unique s r = false →
  keyed keyPath s → index_unique unique s →
  keyed keyPath (<[keyPath r := r]> s)
  ∧ index_unique unique (<[keyPath r := r]> s).
Proof.
  intros Hfree Hkeyed Huniq. rewrite collides_false in Hfree. split.
  - intros k r' Hk. apply lookup_insert_Some in Hk as [[<- <-]|[Hne Hk]]; eauto.
  - intros k1 r1 k2 r2 Hk1 Hk2 Hne.
    apply lookup_insert_Some in Hk1 as [[<- <-]|[Hne1 Hk1]];
      apply lookup_insert_Some in Hk2 as [[<- <-]|[Hne2 Hk2]].
    + done.
    + rewrite unique_sym. eapply Hfree; eauto.
    + eapply Hfree; eauto.
    + eapply Huniq; eauto.
Qed.

Lemma add_keeps_invariants (s s' : gmap string A) r :
  add keyPath unique s r = Success s' →
  keyed keyPath s → index_unique unique s →
  keyed keyPath s' ∧ index_unique unique s'.
Proof.
  unfold add. destruct (s !! keyPath r); [done|].
  destruct (collides keyPath unique s r) eqn:Hfree; [done|].
  intros [= <-]. by apply insert_keeps_invariants.
Qed.

Lemma put_keeps_invariants (s s' : gmap string A) r :
  put keyPath unique s r = Success s' →
  keyed keyPath s → index_unique unique s →
  keyed keyPath s' ∧ index_unique unique s'.
Proof.
  unfold put. destruct (collides keyPath unique s r) eqn:Hfree; [done|].
  intros [= <-]. by apply insert_keeps_invariants.
Qed.

End InvariantFacts.

Lemma workspaceId_position_sym g1 g2 :
  workspaceId_position g1 g2 = workspaceId_position g2 g1.
Proof.
  unfold workspaceId_position.
  by rewrite (String.eqb_sym (tg_workspaceId g1)), (Z.eqb_sym (tg_position g1)).
Qed.

Lemma groupId_position_sym t1 t2 :
  groupId_position t1 t2 = groupId_position t2 t1.
Proof.
  unfold groupId_position.
  by rewrite (String.eqb_sym (tab_groupId t1)), (Z.eqb_sym (tab_position t1)).
Qed.

Lemma wf_tabGroups_checked db :
  keyedb tg_id (tabGroups db) = true →
  index_uniqueb workspaceId_position (tabGroups db) = true →
  wf_tabGroups db.
Proof.
  intros Hk Hu. split; [by apply keyedb_keyed|by apply index_uniqueb_index_unique].
Qed.

Lemma wf_tabs_checked db :
  keyedb tab_id (tabs db) = true →
  index_uniqueb groupId_position (tabs db) = true →
  wf_tabs db.
Proof.
  intros Hk Hu. split; [by apply keyedb_keyed|by apply index_uniqueb_index_unique].
Qed.

(** *** Archive and unarchive *)
Lemma unarchivedTab_archivedTab now t :
  tab_isArchived t = false → tab_archivedAt t = None →
  unarchivedTab (archivedTab now t) = t.
Proof. destruct t. simpl. by intros -> ->. Qed.

Lemma unarchivedTabGroup_archivedTabGroup now g :
  tg_isArchived g = false → tg_archivedAt g = None →
  unarchivedTabGroup (archivedTabGroup now g) = g.
Proof. destruct g. simpl. by intros -> ->. Qed.

(** C10 (archive then unarchive). For a stored tab (tab group) that is not
    archived and has no [archivedAt], archiveTab (archiveTabGroup) resolves
    and stores the record with [isArchived] true and [archivedAt] the
    current date; unarchiveTab (unarchiveTabGroup) on the result resolves
    and gives back the database it started from, so the record under the id
    is the original one in every field. *)
Theorem archive_unarchive_round_trip now db id :
  (∀ t, wf_tabs db → tabs db !! id = Some t →
     tab_isArchived t = false → tab_archivedAt t = None →
     ∃ db1, archiveTab now db id = (Resolved tt, db1)
       ∧ tabs db1 !! id = Some (archivedTab now t)
       ∧ unarchiveTab db1 id = (Resolved tt, db)
       ∧ tabs (unarchiveTab db1 id).2 !! id = Some t)
  ∧ (∀ g, wf_tabGroups db → tabGroups db !! id = Some g →
     tg_isArchived g = false → tg_archivedAt g = None →
     ∃ db1, archiveTabGroup now db id = (Resolved tt, db1)
       ∧ tabGroups db1 !! id = Some (archivedTabGroup now g)
       ∧ unarchiveTabGroup db1 id = (Resolved tt, db)
       ∧ tabGroups (unarchiveTabGroup db1 id).2 !! id = Some g).
Proof.
  split.
  - intros t [Hkeyed Huniq] Ht Hactive Hnodate.
    pose proof (Hkeyed _ _ Ht) as Hid.
    assert (Hothers : ∀ k t', tabs db !! k = Some t' → k ≠ id →
              groupId_position t' t = false)
      by (intros k t' Hk Hne; by apply (Huniq k t' id t)).
    exists (with_tabs db (<[id := archivedTab now t]> (tabs db))).
    assert (archiveTab now db id =
              (Resolved tt, with_tabs db (<[id := archivedTab now t]> (tabs db))))
      as Harchive.
    { unfold archiveTab, in_tabs.
      by rewrite (rewrite_record_written tab_id groupId_position "Tab" "tab"
                  "archive" (archivedTab now) (tabs db) id t Ht Hid Hothers). }
    assert (unarchiveTab (with_tabs db (<[id := archivedTab now t]> (tabs db))) id
            = (Resolved tt, db)) as Hunarchive.
    { unfold unarchiveTab, in_tabs. simpl.
      rewrite (rewrite_record_written tab_id groupId_position "Tab" "tab"
                 "unarchive" unarchivedTab _ id (archivedTab now t)).
      - rewrite unarchivedTab_archivedTab by done.
        rewrite insert_insert_eq, (insert_id _ _ _ Ht).
        destruct db; reflexivity.
      - apply lookup_insert_eq.
      - by rewrite unarchivedTab_archivedTab.
      - intros k t' Hk Hne. rewrite lookup_insert_ne in Hk by done.
        rewrite unarchivedTab_archivedTab by done. eauto. }
    split; [done|]. split; [apply lookup_insert_eq|]. split; [done|].
    by rewrite Hunarchive.
  - intros g [Hkeyed Huniq] Hg Hactive Hnodate.
    pose proof (Hkeyed _ _ Hg) as Hid.
    assert (Hothers : ∀ k g', tabGroups db !! k = Some g' → k ≠ id →
              workspaceId_position g' g = false)
      by (intros k g' Hk Hne; by apply (Huniq k g' id g)).
    exists (with_tabGroups db (<[id := archivedTabGroup now g]> (tabGroups db))).
    assert (archiveTabGroup now db id =
              (Resolved tt,
               with_tabGroups db (<[id := archivedTabGroup now g]> (tabGroups db))))
      as Harchive.
    { unfold archiveTabGroup, in_tabGroups.
      by rewrite (rewrite_record_written tg_id workspaceId_position "Tab group"
                  "tab group" "archive" (archivedTabGroup now) (tabGroups db) id g
                  Hg Hid Hothers). }
    assert (unarchiveTabGroup
              (with_tabGroups db (<[id := archivedTabGroup now g]> (tabGroups db))) id
            = (Resolved tt, db)) as Hunarchive.
    { unfold unarchiveTabGroup, in_tabGroups. simpl.
      rewrite (rewrite_record_written tg_id workspaceId_position "Tab group"
                 "tab group" "unarchive" unarchivedTabGroup _ id
                 (archivedTabGroup now g)).
      - rewrite unarchivedTabGroup_archivedTabGroup by done.
        rewrite insert_insert_eq, (insert_id _ _ _ Hg).
        destruct db; reflexivity.
      - apply lookup_insert_eq.
      - by rewrite unarchivedTabGroup_archivedTabGroup.
      - intros k g' Hk Hne. rewrite lookup_insert_ne in Hk by done.
        rewrite unarchivedTabGroup_archivedTabGroup by done. eauto. }
    split; [done|]. split; [apply lookup_insert_eq|]. split; [done|].
    by rewrite Hunarchive.
Qed.

Lemma archive_unarchive_round_trip_witness :
  (∃ db1,
     archiveTab Sample.now Sample.two_groups_six_tabs "t2" = (Resolved tt, db1)
     ∧ tabs db1 !! "t2" = Some (archivedTab Sample.now (Sample.tab "t2" "g1" 1))
     ∧ unarchiveTab db1 "t2" = (Resolved tt, Sample.two_groups_six_tabs)
     ∧ tabs (unarchiveTab db1 "t2").2 !! "t2" = Some (Sample.tab "t2" "g1" 1))
  ∧ (∃ db1,
     archiveTabGroup Sample.now Sample.two_groups_six_tabs "g1" = (Resolved tt, db1)
     ∧ tabGroups db1 !! "g1"
       = Some (archivedTabGroup Sample.now (Sample.group "g1" "w1" 0 false))
     ∧ unarchiveTabGroup db1 "g1" = (Resolved tt, Sample.two_groups_six_tabs)
     ∧ tabGroups (unarchiveTabGroup db1 "g1").2 !! "g1"
       = Some (Sample.group "g1" "w1" 0 false)).
Proof.
  split.
  - apply (proj1 (archive_unarchive_round_trip Sample.now
                    Sample.two_groups_six_tabs "t2") (Sample.tab "t2" "g1" 1)).
    + apply wf_tabs_checked; vm_compute; reflexivity.
    + vm_compute; reflexivity.
    + reflexivity.
    + reflexivity.
  - apply (proj2 (archive_unarchive_round_trip Sample.now
                    Sample.two_groups_six_tabs "g1") (Sample.group "g1" "w1" 0 false)).
    + apply wf_tabGroups_checked; vm_compute; reflexivity.
    + vm_compute; reflexivity.
    + reflexivity.
    + reflexivity.
Defined.

(** *** Every reachable database satisfies the invariants *)
Section CrudInvariants.
Context {A P : Type}.
Variable keyPath : A → string.
Variable unique : A → A → bool.
Variable merge : A → P → A.
Variable Name name : string.
Lemma delete_record_wf s id :
  wf_store keyPath unique s →
  wf_store keyPath unique (delete_record s id).2.
Proof.
  intros [Hk Hu]. by apply delete_keeps_invariants.
Qed.

Hypothesis unique_sym : ∀ a b, unique a b = unique b a.

Lemma create_record_wf s r :
  wf_store keyPath unique s →
  wf_store keyPath unique (create_record keyPath unique Name name s r).2.
Proof.
  intros [Hk Hu]. unfold create_record.
  destruct (add keyPath unique s r) as [s'|e] eqn:Hadd.
  - by apply (add_keeps_invariants keyPath unique unique_sym s s' r).
  - by destruct e.
Qed.

Lemma update_record_wf s id updates :
  wf_store keyPath unique s →
  wf_store keyPath unique (update_record keyPath unique merge Name name s id updates).2.
Proof.
  intros [Hk Hu]. unfold update_record. destruct (get s id) as [existing|]; [|done].
  destruct (put keyPath unique s (merge existing updates)) as [s'|e] eqn:Hput.
  - by apply (put_keeps_invariants keyPath unique unique_sym s s' _ Hput).
  - done.
Qed.

Lemma rewrite_record_wf verb change s id :
  wf_store keyPath unique s →
  wf_store keyPath unique (rewrite_record keyPath unique Name name verb change s id).2.
Proof.
  intros [Hk Hu]. unfold rewrite_record. destruct (get s id) as [existing|]; [|done].
  destruct (put keyPath unique s (change existing)) as [s'|e] eqn:Hput.
  - by apply (put_keeps_invariants keyPath unique unique_sym s s' _ Hput).
  - done.
Qed.

End CrudInvariants.

Lemma no_unique_index_sym {A} (a b : A) : no_unique_index a b = no_unique_index b a.
Proof. reflexivity. Qed.

Lemma sweep_store_wf deleteFails items st :
  wf_store di_id no_unique_index (sw_store st) →
  wf_store di_id no_unique_index
    (sw_store (foldl (sweep_request deleteFails) st items)).
Proof.
  revert st. induction items as [|item items IH]; intros st Hwf; [done|].
  simpl. apply IH. unfold sweep_request.
  destruct (sw_aborted st || deleteFails (di_id item)); [done|].
  simpl. destruct Hwf. by apply delete_keeps_invariants.
Qed.

Lemma in_workspaces_wf {R} db (f : gmap string Workspace → R * gmap string Workspace) :
  wf_database db →
  wf_store ws_id no_unique_index (f (workspaces db)).2 →
  wf_database (in_workspaces db f).2.
Proof.
  intros (Hw & Hg & Ht & Hd) Hs. unfold in_workspaces.
  destruct (f (workspaces db)) as [r s]. by split.
Qed.

Lemma in_tabGroups_wf {R} db (f : gmap string TabGroup → R * gmap string TabGroup) :
  wf_database db →
  wf_store tg_id workspaceId_position (f (tabGroups db)).2 →
  wf_database (in_tabGroups db f).2.
Proof.
  intros (Hw & Hg & Ht & Hd) Hs. unfold in_tabGroups.
  destruct (f (tabGroups db)) as [r s]. by split.
Qed.

Lemma in_tabs_wf {R} db (f : gmap string Tab → R * gmap string Tab) :
  wf_database db →
  wf_store tab_id groupId_position (f (tabs db)).2 →
  wf_database (in_tabs db f).2.
Proof.
  intros (Hw & Hg & Ht & Hd) Hs. unfold in_tabs.
  destruct (f (tabs db)) as [r s]. by split.
Qed.

Lemma in_deletedItems_wf {R} db
    (f : gmap string DeletedItem → R * gmap string DeletedItem) :
  wf_database db →
  wf_store di_id no_unique_index (f (deletedItems db)).2 →
  wf_database (in_deletedItems db f).2.
Proof.
  intros (Hw & Hg & Ht & Hd) Hs. unfold in_deletedItems.
  destruct (f (deletedItems db)) as [r s]. by split.
Qed.

Lemma run_keeps_invariants call db : wf_database db → wf_database (run call db).
Proof.
  intros Hwf. pose proof Hwf as (Hw & Hg & Ht & Hd).
  destruct call; unfold run;
    unfold createWorkspace, updateWorkspace, deleteWorkspace,
           createTabGroup, updateTabGroup, deleteTabGroup,
           archiveTabGroup, unarchiveTabGroup,
           createTab, updateTab, deleteTab, archiveTab, unarchiveTab,
           createDeletedItem, updateDeletedItem, deleteDeletedItem.
  - apply in_workspaces_wf; [done|].
    apply create_record_wf; [apply no_unique_index_sym|exact Hw].
  - apply in_workspaces_wf; [done|].
    apply update_record_wf; [apply no_unique_index_sym|exact Hw].
  - apply in_workspaces_wf; [done|].
    apply delete_record_wf. exact Hw.
  - apply in_tabGroups_wf; [done|].
    apply create_record_wf; [apply workspaceId_position_sym|exact Hg].
  - apply in_tabGroups_wf; [done|].
    apply update_record_wf; [apply workspaceId_position_sym|exact Hg].
  - apply in_tabGroups_wf; [done|].
    apply delete_record_wf. exact Hg.
  - apply in_tabGroups_wf; [done|].
    apply rewrite_record_wf; [apply workspaceId_position_sym|exact Hg].
  - apply in_tabGroups_wf; [done|].
    apply rewrite_record_wf; [apply workspaceId_position_sym|exact Hg].
  - apply in_tabs_wf; [done|].
    apply create_record_wf; [apply groupId_position_sym|exact Ht].
  - apply in_tabs_wf; [done|].
    apply update_record_wf; [apply groupId_position_sym|exact Ht].
  - apply in_tabs_wf; [done|].
    apply delete_record_wf. exact Ht.
  - apply in_tabs_wf; [done|].
    apply rewrite_record_wf; [apply groupId_position_sym|exact Ht].
  - apply in_tabs_wf; [done|].
    apply rewrite_record_wf; [apply groupId_position_sym|exact Ht].
  - apply in_deletedItems_wf; [done|].
    apply create_record_wf; [apply no_unique_index_sym|exact Hd].
  - apply in_deletedItems_wf; [done|].
    apply update_record_wf; [apply no_unique_index_sym|exact Hd].
  - apply in_deletedItems_wf; [done|].
    apply delete_record_wf. exact Hd.
  - unfold permanentlyDeleteItem. cbn [snd].
    split; [exact Hw|]. split; [exact Hg|]. split; [exact Ht|].
    apply delete_keeps_invariants; apply Hd.
  - by rewrite (proj1 (restoreDeletedItem_leaves_database now db deletedItemId)).
  - unfold cleanupExpiredDeletedItems.
    destruct (Nat.eqb _ 0); [done|]. simpl.
    destruct (sw_aborted _); [done|].
    split; [done|]. split; [done|]. split; [done|].
    by apply sweep_store_wf.
Qed.

Lemma fresh_wf : wf_database fresh.
Proof.
  repeat split; try apply keyed_empty; apply index_unique_empty.
Qed.

(** The invariants hold of every database the program can reach. *)
Lemma reachable_wf db : reachable db → wf_database db.
Proof.
  induction 1 as [|call db _ IH]; [apply fresh_wf|by apply run_keeps_invariants].
Qed.

(** * More of database.ts *)

(** ** Listings and stores *)
Section ListingFacts.
Context {A : Type}.
Variable keyPath : A → string.
Variable unique : A → A → bool.

Lemma getAll_map_to_list (s : gmap string A) : getAll s ≡ₚ (map_to_list s).*2.
Proof. unfold getAll, entries. by rewrite merge_sort_Permutation. Qed.

Lemma getAll_insert_fresh (s : gmap string A) k r :
  s !! k = None → getAll (<[k := r]> s) ≡ₚ r :: getAll s.
Proof.
  intros Hk. rewrite !getAll_map_to_list, map_to_list_insert by done. done.
Qed.

Lemma getAll_lookup (s : gmap string A) k r :
  s !! k = Some r → getAll s ≡ₚ r :: getAll (delete k s).
Proof.
  intros Hk. rewrite <- (insert_delete_id s k r Hk) at 1.
  apply getAll_insert_fresh, lookup_delete_eq.
Qed.

Lemma getAll_replace (s : gmap string A) k r' :
  getAll (<[k := r']> s) ≡ₚ r' :: getAll (delete k s).
Proof.
  rewrite <- insert_delete_eq. apply getAll_insert_fresh, lookup_delete_eq.
Qed.

Lemma getAll_delete_missing (s : gmap string A) k :
  s !! k = None → getAll (delete k s) = getAll s.
Proof. intros Hk. by rewrite delete_id. Qed.

Lemma elem_of_index_getAll (indexKey : A → KeyCandidate) k (s : gmap string A) r :
  r ∈ index_getAll indexKey k s ↔
  (∃ id, s !! id = Some r) ∧ valid_key (indexKey r) = true ∧ indexKey r = k.
Proof.
  unfold index_getAll. rewrite list_elem_of_filter, elem_of_getAll. tauto.
Qed.

Lemma get_record_lookup (s : gmap string A) id :
  get_record s id = Resolved (s !! id).
Proof. unfold get_record, get, js_or. by destruct (s !! id). Qed.

Lemma getAll_records_getAll (s : gmap string A) :
  getAll_records s = Resolved (getAll s).
Proof. reflexivity. Qed.

Lemma add_Success (s s' : gmap string A) r :
  add keyPath unique s r = Success s' ↔
  s !! keyPath r = None ∧ collides keyPath unique s r = false
  ∧ s' = <[keyPath r := r]> s.
Proof.
  unfold add. destruct (s !! keyPath r) eqn:Hk.
  - split; [done|]. by intros [? _].
  - destruct (collides keyPath unique s r).
    + split; [done|]. by intros (_ & ? & _).
    + split; [by intros [= <-]|]. by intros (_ & _ & ->).
Qed.

Lemma put_Success (s s' : gmap string A) r :
  put keyPath unique s r = Success s' ↔
  collides keyPath unique s r = false ∧ s' = <[keyPath r := r]> s.
Proof.
  unfold put. destruct (collides keyPath unique s r).
  - split; [done|]. by intros [? _].
  - split; [by intros [= <-]|]. by intros [_ ->].
Qed.

Lemma collides_insert_same_key (s : gmap string A) r r' :
  keyPath r' = keyPath r →
  collides keyPath unique (<[keyPath r := r']> s) r = collides keyPath unique s r.
Proof.
  intros Hkey.
  destruct (collides keyPath unique s r) eqn:Hc.
  - apply not_false_iff_true. intros Hc'. rewrite collides_false in Hc'.
    apply not_false_iff_true in Hc. apply Hc. apply collides_false.
    intros k x Hk Hne. apply (Hc' k x); [|done]. by rewrite lookup_insert_ne.
  - rewrite collides_false in Hc. apply collides_false. intros k x Hk Hne.
    rewrite lookup_insert_ne in Hk by done. eauto.
Qed.

Variable Name name : string.

Lemma create_record_resolved (s s' : gmap string A) r :
  create_record keyPath unique Name name s r = (Resolved tt, s') ↔
  s !! keyPath r = None ∧ collides keyPath unique s r = false
  ∧ s' = <[keyPath r := r]> s.
Proof.
  unfold create_record. rewrite <- add_Success.
  destruct (add keyPath unique s r) as [s''|e].
  - split; [by intros [= ->]|by intros [= ->]].
  - split; [by destruct e|done].
Qed.

Lemma create_record_resolves (s : gmap string A) r :
  (create_record keyPath unique Name name s r).1 = Resolved tt ↔
  s !! keyPath r = None ∧ collides keyPath unique s r = false.
Proof.
  destruct (create_record keyPath unique Name name s r) as [p s'] eqn:Hc.
  simpl. split.
  - intros ->. apply create_record_resolved in Hc. tauto.
  - intros [Hk Hfree].
    rewrite (create_record_accepted _ _ _ _ _ _ Hk Hfree) in Hc. congruence.
Qed.
End ListingFacts.

Lemma slot_taken_by_other_tab_collides db id t :
  tab_id t = id →
  slot_taken_by_other_tab db id t →
  collides tab_id groupId_position (tabs db) t = true.
Proof.
  intros Hid (k & t' & Hk & Hne & Hg & Hp).
  apply (collides_true _ _ _ _ k t' Hk); [by rewrite Hid|].
  unfold groupId_position. by rewrite Hg, Hp, String.eqb_refl, Z.eqb_refl.
Qed.

Lemma group_collides_iff db g :
  collides tg_id workspaceId_position (tabGroups db) g = false ↔
  ¬ slot_taken_by_other_group db (tg_id g) g.
Proof.
  split.
  - intros Hfree Htaken.
    apply slot_taken_by_other_group_collides in Htaken; [congruence|done].
  - intros Hfree. by apply (group_slot_free db (tg_id g)).
Qed.

Lemma tab_collides_iff db t :
  collides tab_id groupId_position (tabs db) t = false ↔
  ¬ slot_taken_by_other_tab db (tab_id t) t.
Proof.
  split.
  - intros Hfree Htaken.
    apply slot_taken_by_other_tab_collides in Htaken; [congruence|done].
  - intros Hfree. by apply (tab_slot_free db (tab_id t)).
Qed.

(** ** Create *)

(** X1 (when a create is accepted). createWorkspace and createDeletedItem
    resolve exactly when the id is not yet in the store; createTabGroup
    (createTab) resolves exactly when the id is not yet in the store and no
    stored group (tab) has the same workspaceId (groupId) and position.
    Nothing else is looked at: the parent need not exist. *)
Theorem create_resolves_iff db :
  (∀ w, (createWorkspace db w).1 = Resolved tt ↔ workspaces db !! ws_id w = None)
  ∧ (∀ g, (createTabGroup db g).1 = Resolved tt ↔
       tabGroups db !! tg_id g = None
       ∧ ¬ slot_taken_by_other_group db (tg_id g) g)
  ∧ (∀ t, (createTab db t).1 = Resolved tt ↔
       tabs db !! tab_id t = None
       ∧ ¬ slot_taken_by_other_tab db (tab_id t) t)
  ∧ (∀ item, (createDeletedItem db item).1 = Resolved tt ↔
       deletedItems db !! di_id item = None).
Proof.
  repeat apply conj.
  - intros w. unfold createWorkspace, in_workspaces.
    destruct (create_record _ _ _ _ _ _) as [p s] eqn:Hc. simpl.
    change p with (p, s).1. rewrite <- Hc, create_record_resolves.
    rewrite no_unique_index_never_collides. tauto.
  - intros g. unfold createTabGroup, in_tabGroups.
    destruct (create_record _ _ _ _ _ _) as [p s] eqn:Hc. simpl.
    change p with (p, s).1. rewrite <- Hc, create_record_resolves.
    by rewrite group_collides_iff.
  - intros t. unfold createTab, in_tabs.
    destruct (create_record _ _ _ _ _ _) as [p s] eqn:Hc. simpl.
    change p with (p, s).1. rewrite <- Hc, create_record_resolves.
    by rewrite tab_collides_iff.
  - intros item. unfold createDeletedItem, in_deletedItems.
    destruct (create_record _ _ _ _ _ _) as [p s] eqn:Hc. simpl.
    change p with (p, s).1. rewrite <- Hc, create_record_resolves.
    rewrite no_unique_index_never_collides. tauto.
Qed.

Section CreateGetFacts.
Context {A : Type}.
Variable keyPath : A → string.
Variable unique : A → A → bool.
Variable Name name : string.

Lemma create_record_then_get (s s' : gmap string A) r :
  create_record keyPath unique Name name s r = (Resolved tt, s') →
  get_record s' (keyPath r) = Resolved (Some r)
  ∧ ∀ id, id ≠ keyPath r → get_record s' id = get_record s id.
Proof.
  intros Hc. apply create_record_resolved in Hc as (_ & _ & ->).
  rewrite !get_record_lookup, lookup_insert_eq. split; [done|].
  intros id Hne. by rewrite !get_record_lookup, lookup_insert_ne.
Qed.

Lemma delete_record_then_get (s : gmap string A) id :
  get_record (delete_record s id).2 id = Resolved None
  ∧ (∀ id', id' ≠ id →
       get_record (delete_record s id).2 id' = get_record s id')
  ∧ delete_record (delete_record s id).2 id = delete_record s id.
Proof.
  unfold delete_record, delete_key. simpl.
  rewrite get_record_lookup, lookup_delete_eq. split; [done|]. split.
  - intros id' Hne. by rewrite !get_record_lookup, lookup_delete_ne.
  - by rewrite delete_delete_eq.
Qed.
End CreateGetFacts.

(** X2 (create then get). After a create that resolved, the get function
    of the store resolves with the created record under its id, every
    other id reads as before, and the three other stores are untouched. *)
Theorem create_then_get db :
  (∀ w db', createWorkspace db w = (Resolved tt, db') →
     getWorkspace db' (ws_id w) = Resolved (Some w)
     ∧ (∀ id, id ≠ ws_id w → getWorkspace db' id = getWorkspace db id)
     ∧ tabGroups db' = tabGroups db ∧ tabs db' = tabs db
     ∧ deletedItems db' = deletedItems db)
  ∧ (∀ g db', createTabGroup db g = (Resolved tt, db') →
     getTabGroup db' (tg_id g) = Resolved (Some g)
     ∧ (∀ id, id ≠ tg_id g → getTabGroup db' id = getTabGroup db id)
     ∧ workspaces db' = workspaces db ∧ tabs db' = tabs db
     ∧ deletedItems db' = deletedItems db)
  ∧ (∀ t db', createTab db t = (Resolved tt, db') →
     getTab db' (tab_id t) = Resolved (Some t)
     ∧ (∀ id, id ≠ tab_id t → getTab db' id = getTab db id)
     ∧ workspaces db' = workspaces db ∧ tabGroups db' = tabGroups db
     ∧ deletedItems db' = deletedItems db)
  ∧ (∀ item db', createDeletedItem db item = (Resolved tt, db') →
     getDeletedItem db' (di_id item) = Resolved (Some item)
     ∧ (∀ id, id ≠ di_id item → getDeletedItem db' id = getDeletedItem db id)
     ∧ workspaces db' = workspaces db ∧ tabGroups db' = tabGroups db
     ∧ tabs db' = tabs db).
Proof.
  repeat apply conj.
  - intros w db'. unfold createWorkspace, in_workspaces, getWorkspace.
    destruct (create_record _ _ _ _ _ _) as [p s] eqn:Hc. intros [= -> <-].
    destruct (create_record_then_get _ _ _ _ _ _ _ Hc). by simpl.
  - intros g db'. unfold createTabGroup, in_tabGroups, getTabGroup.
    destruct (create_record _ _ _ _ _ _) as [p s] eqn:Hc. intros [= -> <-].
    destruct (create_record_then_get _ _ _ _ _ _ _ Hc). by simpl.
  - intros t db'. unfold createTab, in_tabs, getTab.
    destruct (create_record _ _ _ _ _ _) as [p s] eqn:Hc. intros [= -> <-].
    destruct (create_record_then_get _ _ _ _ _ _ _ Hc). by simpl.
  - intros item db'. unfold createDeletedItem, in_deletedItems, getDeletedItem.
    destruct (create_record _ _ _ _ _ _) as [p s] eqn:Hc. intros [= -> <-].
    destruct (create_record_then_get _ _ _ _ _ _ _ Hc). by simpl.
Qed.

Lemma create_then_get_witness :
  getTabGroup (createTabGroup Sample.one_group (Sample.group "g2" "w1" 1 false)).2 "g2"
    = Resolved (Some (Sample.group "g2" "w1" 1 false))
  ∧ (∀ id, id ≠ "g2" →
       getTabGroup (createTabGroup Sample.one_group
                      (Sample.group "g2" "w1" 1 false)).2 id
       = getTabGroup Sample.one_group id)
  ∧ workspaces (createTabGroup Sample.one_group (Sample.group "g2" "w1" 1 false)).2
    = workspaces Sample.one_group
  ∧ tabs (createTabGroup Sample.one_group (Sample.group "g2" "w1" 1 false)).2
    = tabs Sample.one_group
  ∧ deletedItems (createTabGroup Sample.one_group (Sample.group "g2" "w1" 1 false)).2
    = deletedItems Sample.one_group.
Proof.
  apply (proj1 (proj2 (create_then_get Sample.one_group))
           (Sample.group "g2" "w1" 1 false)).
  vm_compute; reflexivity.
Defined.

(** X3 (create of a stored id). A create whose id is already in the store
    is rejected with "<Entity> with ID '<id>' already exists" and the
    database is left as it was, the stored record included. *)
Theorem create_of_stored_id_rejected db :
  (∀ w, is_Some (workspaces db !! ws_id w) →
     createWorkspace db w =
       (Rejected (Error ("Workspace with ID '" +:+ ws_id w +:+ "' already exists")), db))
  ∧ (∀ g, is_Some (tabGroups db !! tg_id g) →
     createTabGroup db g =
       (Rejected (Error ("Tab group with ID '" +:+ tg_id g +:+ "' already exists")), db))
  ∧ (∀ t, is_Some (tabs db !! tab_id t) →
     createTab db t =
       (Rejected (Error ("Tab with ID '" +:+ tab_id t +:+ "' already exists")), db))
  ∧ (∀ item, is_Some (deletedItems db !! di_id item) →
     createDeletedItem db item =
       (Rejected (Error ("Deleted item with ID '" +:+ di_id item
                         +:+ "' already exists")), db)).
Proof.
  repeat apply conj.
  - intros w Hw. unfold createWorkspace, in_workspaces.
    rewrite create_record_refused by (by left). by rewrite with_workspaces_same.
  - intros g Hg. unfold createTabGroup, in_tabGroups.
    rewrite create_record_refused by (by left). by rewrite with_tabGroups_same.
  - intros t Ht. unfold createTab, in_tabs.
    rewrite create_record_refused by (by left). by rewrite with_tabs_same.
  - intros item Hitem. unfold createDeletedItem, in_deletedItems.
    rewrite create_record_refused by (by left). by rewrite with_deletedItems_same.
Qed.

Lemma create_of_stored_id_rejected_witness :
  createWorkspace Sample.one_group
    {| ws_id := "w1"; ws_name := "Other"; ws_isDefault := false;
       ws_createdAt := 5; ws_lastAccessedAt := 5 |}
  = (Rejected (Error "Workspace with ID 'w1' already exists"), Sample.one_group).
Proof.
  apply (proj1 (create_of_stored_id_rejected Sample.one_group)
           {| ws_id := "w1"; ws_name := "Other"; ws_isDefault := false;
              ws_createdAt := 5; ws_lastAccessedAt := 5 |}).
  vm_compute. eauto.
Defined.

(** ** Delete *)


(** X5 (no cascade). Deleting a workspace deletes no tab group and no
    tab: its groups are still listed by getTabGroupsByWorkspace.  Deleting
    a tab group deletes no tab: its tabs are still listed by
    getTabsByGroup and counted by getTabCount. *)
Theorem delete_never_cascades db id :
  (tabGroups (deleteWorkspace db id).2 = tabGroups db
   ∧ tabs (deleteWorkspace db id).2 = tabs db
   ∧ getTabGroupsByWorkspace (deleteWorkspace db id).2 id
     = getTabGroupsByWorkspace db id)
  ∧ (tabs (deleteTabGroup db id).2 = tabs db
   ∧ getTabsByGroup (deleteTabGroup db id).2 id = getTabsByGroup db id
   ∧ getTabCount (deleteTabGroup db id).2 id = getTabCount db id).
Proof. repeat split. Qed.

(** ** Update *)
Lemma spread_spread {V} (existing : V) (updates : option V) :
  spread (spread existing updates) updates = spread existing updates.
Proof. by destruct updates. Qed.

Lemma mergeWorkspace_twice existing updates :
  mergeWorkspace (mergeWorkspace existing updates) updates
  = mergeWorkspace existing updates.
Proof. unfold mergeWorkspace. simpl. by rewrite !spread_spread. Qed.

Lemma mergeTabGroup_twice existing updates :
  mergeTabGroup (mergeTabGroup existing updates) updates
  = mergeTabGroup existing updates.
Proof. unfold mergeTabGroup. simpl. by rewrite !spread_spread. Qed.

Lemma mergeTab_twice existing updates :
  mergeTab (mergeTab existing updates) updates = mergeTab existing updates.
Proof. unfold mergeTab. simpl. by rewrite !spread_spread. Qed.

Lemma mergeDeletedItem_twice existing updates :
  mergeDeletedItem (mergeDeletedItem existing updates) updates
  = mergeDeletedItem existing updates.
Proof. unfold mergeDeletedItem. simpl. by rewrite !spread_spread. Qed.

Section UpdateTwice.
Context {A P : Type}.
Variable keyPath : A → string.
Variable unique : A → A → bool.
Variable merge : A → P → A.
Variable Name name : string.
Hypothesis merge_twice :
  ∀ existing updates, merge (merge existing updates) updates = merge existing updates.

Lemma update_record_resolved (s s' : gmap string A) id updates :
  update_record keyPath unique merge Name name s id updates = (Resolved tt, s') ↔
  ∃ existing, s !! id = Some existing
    ∧ collides keyPath unique s (merge existing updates) = false
    ∧ s' = <[keyPath (merge existing updates) := merge existing updates]> s.
Proof.
  unfold update_record, get. destruct (s !! id) as [existing|].
  - destruct (put keyPath unique s (merge existing updates)) as [s''|e] eqn:Hput.
    + apply put_Success in Hput as [Hfree ->]. split.
      * intros [= <-]. eauto.
      * by intros (? & [= <-] & _ & ->).
    + split; [done|]. intros (? & [= <-] & Hfree & _).
      unfold put in Hput. by rewrite Hfree in Hput.
  - split; [done|]. by intros (? & ? & _).
Qed.

Lemma update_record_twice (s s' : gmap string A) id updates :
  update_record keyPath unique merge Name name s id updates = (Resolved tt, s') →
  update_record keyPath unique merge Name name s' id updates = (Resolved tt, s').
Proof.
  intros Hfirst. apply update_record_resolved in Hfirst
    as (existing & Hex & Hfree & ->).
  set (m := merge existing updates) in *.
  apply update_record_resolved.
  assert (∃ existing', <[keyPath m := m]> s !! id = Some existing'
            ∧ merge existing' updates = m) as (existing' & Hex' & Hm).
  { destruct (decide (keyPath m = id)) as [<-|Hne].
    - exists m. rewrite lookup_insert_eq. split; [done|]. apply merge_twice.
    - exists existing. by rewrite lookup_insert_ne. }
  exists existing'. rewrite Hm. split; [done|]. split.
  - by rewrite collides_insert_same_key.
  - by rewrite insert_insert_eq.
Qed.
End UpdateTwice.

(** X6 (update twice). When an update resolves, the same update applied
    again to the result resolves and changes nothing. *)
Theorem update_twice db id :
  (∀ updates db', updateWorkspace db id updates = (Resolved tt, db') →
     updateWorkspace db' id updates = (Resolved tt, db'))
  ∧ (∀ updates db', updateTabGroup db id updates = (Resolved tt, db') →
     updateTabGroup db' id updates = (Resolved tt, db'))
  ∧ (∀ updates db', updateTab db id updates = (Resolved tt, db') →
     updateTab db' id updates = (Resolved tt, db'))
  ∧ (∀ updates db', updateDeletedItem db id updates = (Resolved tt, db') →
     updateDeletedItem db' id updates = (Resolved tt, db')).
Proof.
  repeat apply conj.
  - intros updates db'. unfold updateWorkspace, in_workspaces.
    destruct (update_record _ _ _ _ _ _ _ _) as [p s] eqn:Hu. intros [= -> <-].
    simpl. by rewrite (update_record_twice _ _ _ _ _ mergeWorkspace_twice _ _ _ _ Hu).
  - intros updates db'. unfold updateTabGroup, in_tabGroups.
    destruct (update_record _ _ _ _ _ _ _ _) as [p s] eqn:Hu. intros [= -> <-].
    simpl. by rewrite (update_record_twice _ _ _ _ _ mergeTabGroup_twice _ _ _ _ Hu).
  - intros updates db'. unfold updateTab, in_tabs.
    destruct (update_record _ _ _ _ _ _ _ _) as [p s] eqn:Hu. intros [= -> <-].
    simpl. by rewrite (update_record_twice _ _ _ _ _ mergeTab_twice _ _ _ _ Hu).
  - intros updates db'. unfold updateDeletedItem, in_deletedItems.
    destruct (update_record _ _ _ _ _ _ _ _) as [p s] eqn:Hu. intros [= -> <-].
    simpl. by rewrite (update_record_twice _ _ _ _ _ mergeDeletedItem_twice _ _ _ _ Hu).
Qed.

Lemma update_twice_witness :
  updateTabGroup (updateTabGroup Sample.two_groups "g2" Sample.rename_group).2
                 "g2" Sample.rename_group
  = (Resolved tt, (updateTabGroup Sample.two_groups "g2" Sample.rename_group).2).
Proof.
  apply (proj1 (proj2 (update_twice Sample.two_groups "g2")) Sample.rename_group).
  vm_compute; reflexivity.
Defined.

(** X7 (an update that names another id). updateWorkspace(id, updates)
    with [updates.id] another id resolves, leaves the record under [id] as
    it was and files the merged record under the other id, in place of
    whatever was stored there.  The same update of a tab group without a
    new workspaceId or position is always rejected, nothing changed: the
    record under [id] still holds the slot. *)
Theorem update_naming_another_id db id other :
  other ≠ id →
  (∀ updates prior,
     workspaces db !! id = Some prior → pw_id updates = Some other →
     (updateWorkspace db id updates).1 = Resolved tt
     ∧ workspaces (updateWorkspace db id updates).2 !! id = Some prior
     ∧ workspaces (updateWorkspace db id updates).2 !! other
       = Some (mergeWorkspace prior updates)
     ∧ ws_id (mergeWorkspace prior updates) = other)
  ∧ (∀ updates prior,
     tabGroups db !! id = Some prior → pg_id updates = Some other →
     pg_workspaceId updates = None → pg_position updates = None →
     updateTabGroup db id updates =
       (Rejected (ErrorWith "Failed to update tab group: " ConstraintError), db)).
Proof.
  intros Hne. split.
  - intros updates prior Hprior Hid.
    assert (ws_id (mergeWorkspace prior updates) = other) as Hkey
      by (simpl; by rewrite Hid).
    unfold updateWorkspace, in_workspaces.
    destruct (update_record _ _ _ _ _ _ _ _) as [p s] eqn:Hu.
    assert (update_record ws_id no_unique_index mergeWorkspace "Workspace"
              "workspace" (workspaces db) id updates
            = (Resolved tt, <[other := mergeWorkspace prior updates]> (workspaces db)))
      as Hres.
    { apply update_record_resolved. exists prior. split; [done|]. split.
      - apply no_unique_index_never_collides.
      - by rewrite Hkey. }
    rewrite Hres in Hu. injection Hu as <- <-. simpl.
    rewrite lookup_insert_ne by done. rewrite lookup_insert_eq. done.
  - intros updates prior Hprior Hid Hw Hp.
    unfold updateTabGroup, in_tabGroups.
    rewrite (update_record_refused _ _ _ _ _ _ _ _ prior Hprior).
    + by rewrite with_tabGroups_same.
    + apply (collides_true _ _ _ _ id prior Hprior).
      * simpl. rewrite Hid. simpl. done.
      * unfold workspaceId_position. simpl. rewrite Hw, Hp. simpl.
        by rewrite String.eqb_refl, Z.eqb_refl.
Qed.

Lemma update_naming_another_id_witness :
  (updateWorkspace Sample.one_group "w1" Sample.change_id_to_w2).1 = Resolved tt
  ∧ workspaces (updateWorkspace Sample.one_group "w1" Sample.change_id_to_w2).2
      !! "w1" = Some Sample.home
  ∧ workspaces (updateWorkspace Sample.one_group "w1" Sample.change_id_to_w2).2
      !! "w2" = Some (mergeWorkspace Sample.home Sample.change_id_to_w2)
  ∧ ws_id (mergeWorkspace Sample.home Sample.change_id_to_w2) = "w2".
Proof.
  apply (proj1 (update_naming_another_id Sample.one_group "w1" "w2"
                  ltac:(discriminate))
           Sample.change_id_to_w2 Sample.home).
  - vm_compute; reflexivity.
  - reflexivity.
Defined.

(** ** Invariants of the databases the functions build *)

(** X8 (ids and slots are unique). In every database reached from the
    empty one through the functions that write, each record is filed
    under its own id, two different tab groups of one workspace have
    different positions, and two different tabs of one group have
    different positions. *)
Theorem reachable_ids_and_slots db :
  reachable db →
  (∀ id w, workspaces db !! id = Some w → ws_id w = id)
  ∧ (∀ id g, tabGroups db !! id = Some g → tg_id g = id)
  ∧ (∀ id t, tabs db !! id = Some t → tab_id t = id)
  ∧ (∀ id item, deletedItems db !! id = Some item → di_id item = id)
  ∧ (∀ id1 g1 id2 g2,
       tabGroups db !! id1 = Some g1 → tabGroups db !! id2 = Some g2 →
       id1 ≠ id2 → tg_workspaceId g1 = tg_workspaceId g2 →
       tg_position g1 ≠ tg_position g2)
  ∧ (∀ id1 t1 id2 t2,
       tabs db !! id1 = Some t1 → tabs db !! id2 = Some t2 →
       id1 ≠ id2 → tab_groupId t1 = tab_groupId t2 →
       tab_position t1 ≠ tab_position t2).
Proof.
  intros Hreach. apply reachable_wf in Hreach
    as ([Hw _] & [Hg Hgu] & [Ht Htu] & [Hd _]).
  repeat apply conj; try done.
  - intros id1 g1 id2 g2 H1 H2 Hne Hws Hpos.
    pose proof (Hgu id1 g1 id2 g2 H1 H2 Hne) as Hu.
    unfold workspaceId_position in Hu.
    by rewrite Hws, Hpos, String.eqb_refl, Z.eqb_refl in Hu.
  - intros id1 t1 id2 t2 H1 H2 Hne Hgr Hpos.
    pose proof (Htu id1 t1 id2 t2 H1 H2 Hne) as Hu.
    unfold groupId_position in Hu.
    by rewrite Hgr, Hpos, String.eqb_refl, Z.eqb_refl in Hu.
Qed.

Lemma reachable_built : reachable Fixture.built.
Proof. unfold Fixture.built. repeat apply reachable_run. apply reachable_fresh. Qed.

Lemma reachable_ids_and_slots_witness :
  (∀ id g, tabGroups Fixture.built !! id = Some g → tg_id g = id)
  ∧ (∀ id1 g1 id2 g2,
       tabGroups Fixture.built !! id1 = Some g1 →
       tabGroups Fixture.built !! id2 = Some g2 →
       id1 ≠ id2 → tg_workspaceId g1 = tg_workspaceId g2 →
       tg_position g1 ≠ tg_position g2).
Proof.
  split.
  - apply (reachable_ids_and_slots Fixture.built reachable_built).
  - apply (reachable_ids_and_slots Fixture.built reachable_built).
Defined.

(** ** Archive *)
Lemma archiveTab_written now db id t :
  wf_tabs db → tabs db !! id = Some t →
  archiveTab now db id
  = (Resolved tt, with_tabs db (<[id := archivedTab now t]> (tabs db))).
Proof.
  intros [Hkeyed Huniq] Ht. unfold archiveTab, in_tabs.
  rewrite (rewrite_record_written tab_id groupId_position "Tab" "tab"
             "archive" (archivedTab now) (tabs db) id t Ht); [done|..].
  - apply (Hkeyed _ _ Ht).
  - intros k t' Hk Hne. by apply (Huniq k t' id t).
Qed.

Lemma unarchiveTab_written db id t :
  wf_tabs db → tabs db !! id = Some t →
  unarchiveTab db id
  = (Resolved tt, with_tabs db (<[id := unarchivedTab t]> (tabs db))).
Proof.
  intros [Hkeyed Huniq] Ht. unfold unarchiveTab, in_tabs.
  rewrite (rewrite_record_written tab_id groupId_position "Tab" "tab"
             "unarchive" unarchivedTab (tabs db) id t Ht); [done|..].
  - apply (Hkeyed _ _ Ht).
  - intros k t' Hk Hne. by apply (Huniq k t' id t).
Qed.

Lemma archiveTabGroup_written now db id g :
  wf_tabGroups db → tabGroups db !! id = Some g →
  archiveTabGroup now db id
  = (Resolved tt, with_tabGroups db (<[id := archivedTabGroup now g]> (tabGroups db))).
Proof.
  intros [Hkeyed Huniq] Hg. unfold archiveTabGroup, in_tabGroups.
  rewrite (rewrite_record_written tg_id workspaceId_position "Tab group"
             "tab group" "archive" (archivedTabGroup now) (tabGroups db) id g Hg);
    [done|..].
  - apply (Hkeyed _ _ Hg).
  - intros k g' Hk Hne. by apply (Huniq k g' id g).
Qed.


Lemma wf_tabs_after_write db call : wf_database db → wf_tabs (run call db).
Proof. intros Hwf. by apply run_keeps_invariants. Qed.

Lemma wf_tabGroups_after_write db call : wf_database db → wf_tabGroups (run call db).
Proof. intros Hwf. by apply run_keeps_invariants. Qed.


Lemma wf_database_checked db :
  keyedb ws_id (workspaces db) = true →
  keyedb tg_id (tabGroups db) = true →
  index_uniqueb workspaceId_position (tabGroups db) = true →
  keyedb tab_id (tabs db) = true →
  index_uniqueb groupId_position (tabs db) = true →
  keyedb di_id (deletedItems db) = true →
  wf_database db.
Proof.
  intros Hw Hg Hgu Ht Htu Hd. split; [|split; [|split]]; split.
  - by apply keyedb_keyed.
  - intros k1 r1 k2 r2 _ _ _. reflexivity.
  - by apply keyedb_keyed.
  - by apply index_uniqueb_index_unique.
  - by apply keyedb_keyed.
  - by apply index_uniqueb_index_unique.
  - by apply keyedb_keyed.
  - intros k1 r1 k2 r2 _ _ _. reflexivity.
Qed.


(** ** Counting the tabs of a group *)
Lemma getTabCount_counted db groupId :
  getTabCount db groupId
  = Resolved (length (filter (counted groupId) (getAll (tabs db)))).
Proof.
  unfold getTabCount, index_getAll. by rewrite list_filter_filter.
Qed.

Lemma counted_iff groupId t :
  counted groupId t ↔ tab_isArchived t = false ∧ tab_groupId t = groupId.
Proof.
  unfold counted. simpl. rewrite negb_true_iff. split.
  - intros (? & _ & [= ?]). done.
  - intros [? ->]. done.
Qed.

Lemma count_replace {A} (P : A → Prop) `{∀ x, Decision (P x)}
    (s : gmap string A) k r r' :
  s !! k = Some r →
  length (filter P (getAll s))
  = ((if decide (P r) then 1 else 0)
     + length (filter P (getAll (delete k s))))%nat
  ∧ length (filter P (getAll (<[k := r']> s)))
    = ((if decide (P r') then 1 else 0)
       + length (filter P (getAll (delete k s))))%nat.
Proof.
  intros Hk. split.
  - rewrite (getAll_lookup s k r Hk), filter_cons. by destruct (decide (P r)).
  - rewrite (getAll_replace s k r'), filter_cons. by destruct (decide (P r')).
Qed.

(** X10 (archiving and the count of a group). Archiving a stored,
    non-archived tab lowers getTabCount of its group by exactly one and
    leaves the count of every other group as it was; the tab is still
    listed by getTabsByGroup; unarchiving it brings the count back. *)
Theorem archive_lowers_count now db id t :
  wf_database db → tabs db !! id = Some t → tab_isArchived t = false →
  ∃ n,
    getTabCount db (tab_groupId t) = Resolved (S n)
    ∧ getTabCount (archiveTab now db id).2 (tab_groupId t) = Resolved n
    ∧ (∀ groupId, groupId ≠ tab_groupId t →
         getTabCount (archiveTab now db id).2 groupId = getTabCount db groupId)
    ∧ (∃ all, getTabsByGroup (archiveTab now db id).2 (tab_groupId t) = Resolved all
              ∧ archivedTab now t ∈ all)
    ∧ getTabCount (unarchiveTab (archiveTab now db id).2 id).2 (tab_groupId t)
      = Resolved (S n).
Proof.
  intros Hwf Ht Hactive. pose proof Hwf as (_ & _ & Hwft & _).
  pose proof (wf_tabs_after_write db (ArchiveTab now id) Hwf) as Hwf1.
  simpl in Hwf1.
  rewrite (archiveTab_written now db id t Hwft Ht) in *. cbn [snd] in *.
  rewrite (unarchiveTab_written _ id (archivedTab now t) Hwf1)
    by apply lookup_insert_eq.
  simpl. rewrite insert_insert_eq.
  exists (length (filter (counted (tab_groupId t)) (getAll (delete id (tabs db))))).
  rewrite !getTabCount_counted. simpl.
  destruct (count_replace (counted (tab_groupId t)) (tabs db) id t
              (archivedTab now t) Ht) as [Hbefore Hafter].
  destruct (count_replace (counted (tab_groupId t)) (tabs db) id t
              (unarchivedTab (archivedTab now t)) Ht) as [_ Hback].
  rewrite Hbefore, Hafter, Hback.
  rewrite (decide_True (P := counted (tab_groupId t) t))
    by (by apply counted_iff).
  rewrite (decide_False (P := counted (tab_groupId t) (archivedTab now t)))
    by (rewrite counted_iff; simpl; by intros [? _]).
  rewrite (decide_True (P := counted (tab_groupId t) (unarchivedTab (archivedTab now t))))
    by (by apply counted_iff).
  split; [done|]. split; [done|]. split; [|split; [|done]].
  - intros groupId Hne. rewrite !getTabCount_counted. simpl.
    destruct (count_replace (counted groupId) (tabs db) id t
                (archivedTab now t) Ht) as [Hb Ha].
    rewrite Hb, Ha.
    rewrite (decide_False (P := counted groupId t))
      by (rewrite counted_iff; by intros [_ ?]).
    rewrite (decide_False (P := counted groupId (archivedTab now t)))
      by (rewrite counted_iff; simpl; by intros [? _]).
    done.
  - exists (index_getAll (λ t0, VString (tab_groupId t0)) (VString (tab_groupId t))
              (<[id := archivedTab now t]> (tabs db))).
    split; [reflexivity|].
    apply (proj2 (elem_of_index_getAll tab_id groupId_position _ _ _ _)). split; [|done].
    exists id. apply lookup_insert_eq.
Qed.

Lemma archive_lowers_count_witness :
  ∃ n,
    getTabCount Sample.two_groups_six_tabs "g1" = Resolved (S n)
    ∧ getTabCount (archiveTab 7 Sample.two_groups_six_tabs "t2").2 "g1" = Resolved n
    ∧ (∀ groupId, groupId ≠ "g1" →
         getTabCount (archiveTab 7 Sample.two_groups_six_tabs "t2").2 groupId
         = getTabCount Sample.two_groups_six_tabs groupId)
    ∧ (∃ all, getTabsByGroup (archiveTab 7 Sample.two_groups_six_tabs "t2").2 "g1"
              = Resolved all
              ∧ archivedTab 7 (Sample.tab "t2" "g1" 1) ∈ all)
    ∧ getTabCount (unarchiveTab (archiveTab 7 Sample.two_groups_six_tabs "t2").2
                     "t2").2 "g1"
      = Resolved (S n).
Proof.
  apply (archive_lowers_count 7 Sample.two_groups_six_tabs "t2"
           (Sample.tab "t2" "g1" 1)
           ltac:(apply wf_database_checked; vm_compute; reflexivity)
           ltac:(vm_compute; reflexivity) eq_refl).
Defined.

(** ** The slot index *)
Lemma slot_filter_iff workspaceId position g :
  (forallb valid_key [VString (tg_workspaceId g); VNumber (tg_position g)] = true
   ∧ [VString (tg_workspaceId g); VNumber (tg_position g)]
     = [VString workspaceId; VNumber position])
  ↔ tg_workspaceId g = workspaceId ∧ tg_position g = position.
Proof.
  simpl. split.
  - intros [_ [= ? ?]]. done.
  - intros [-> ->]. done.
Qed.

Lemma getTabGroupByPosition_Some db workspaceId position g :
  wf_tabGroups db →
  getTabGroupByPosition db workspaceId position = Resolved (Some g) ↔
  (∃ id, tabGroups db !! id = Some g)
  ∧ tg_workspaceId g = workspaceId ∧ tg_position g = position.
Proof.
  intros [Hkeyed Huniq]. unfold getTabGroupByPosition, index_get_array.
  set (l := filter _ (getAll (tabGroups db))).
  assert (Hin : ∀ g', g' ∈ l ↔
            (∃ id, tabGroups db !! id = Some g')
            ∧ tg_workspaceId g' = workspaceId ∧ tg_position g' = position).
  { intros g'. unfold l.
    rewrite list_elem_of_filter, slot_filter_iff, elem_of_getAll. tauto. }
  split.
  - intros Hres. apply Hin.
    destruct (head l) as [g'|] eqn:Hhead; [|done].
    injection Hres as ->. by apply head_Some_elem_of.
  - intros Hg. pose proof (proj2 (Hin g) Hg) as Hgl.
    destruct (head l) as [g'|] eqn:Hhead.
    + unfold js_or. simpl. do 2 f_equal.
      apply head_Some_elem_of, Hin in Hhead as ([id' Hid'] & Hw' & Hp').
      destruct Hg as ([id Hid] & Hw & Hp).
      destruct (decide (id = id')) as [->|Hne]; [congruence|].
      pose proof (Huniq id g id' g' Hid Hid' Hne) as Hu.
      unfold workspaceId_position in Hu.
      by rewrite Hw, Hw', Hp, Hp', String.eqb_refl, Z.eqb_refl in Hu.
    + apply head_None in Hhead. rewrite Hhead in Hgl. by apply elem_of_nil in Hgl.
Qed.

Lemma getTabGroupByPosition_None db workspaceId position :
  getTabGroupByPosition db workspaceId position = Resolved None ↔
  ∀ id g, tabGroups db !! id = Some g →
    ¬ (tg_workspaceId g = workspaceId ∧ tg_position g = position).
Proof.
  unfold getTabGroupByPosition, index_get_array.
  set (l := filter _ (getAll (tabGroups db))).
  assert (Hin : ∀ g', g' ∈ l ↔
            (∃ id, tabGroups db !! id = Some g')
            ∧ tg_workspaceId g' = workspaceId ∧ tg_position g' = position).
  { intros g'. unfold l.
    rewrite list_elem_of_filter, slot_filter_iff, elem_of_getAll. tauto. }
  split.
  - intros Hres id g Hid Hslot.
    destruct (head l) as [g'|] eqn:Hhead; [done|].
    apply head_None in Hhead.
    assert (g ∈ l) as Hgl by (apply Hin; eauto).
    rewrite Hhead in Hgl. by apply elem_of_nil in Hgl.
  - intros Hnone. destruct (head l) as [g'|] eqn:Hhead; [|done].
    apply head_Some_elem_of, Hin in Hhead as ([id Hid] & Hslot).
    by destruct (Hnone id g' Hid).
Qed.

Lemma createTabGroup_resolved db g db' :
  createTabGroup db g = (Resolved tt, db') →
  tabGroups db !! tg_id g = None
  ∧ collides tg_id workspaceId_position (tabGroups db) g = false
  ∧ db' = with_tabGroups db (<[tg_id g := g]> (tabGroups db)).
Proof.
  unfold createTabGroup, in_tabGroups.
  destruct (create_record _ _ _ _ _ _) as [p s] eqn:Hc. intros [= -> <-].
  apply create_record_resolved in Hc as (? & ? & ->). done.
Qed.

(** X11 (who is at a slot). In a database that keeps the invariants,
    getTabGroupByPosition(workspaceId, position) resolves with a group
    exactly when that group is stored with this workspaceId and position,
    and with [null] exactly when no stored group has them; the group
    returned by a createTabGroup that resolved is found at its slot. *)
Theorem getTabGroupByPosition_finds db workspaceId position :
  wf_tabGroups db →
  (∀ g, getTabGroupByPosition db workspaceId position = Resolved (Some g) ↔
        (∃ id, tabGroups db !! id = Some g)
        ∧ tg_workspaceId g = workspaceId ∧ tg_position g = position)
  ∧ (getTabGroupByPosition db workspaceId position = Resolved None ↔
     ∀ id g, tabGroups db !! id = Some g →
       ¬ (tg_workspaceId g = workspaceId ∧ tg_position g = position))
  ∧ (∀ g db', createTabGroup db g = (Resolved tt, db') →
       getTabGroupByPosition db' (tg_workspaceId g) (tg_position g)
       = Resolved (Some g)).
Proof.
  intros Hwf. split; [|split].
  - intros g. by apply getTabGroupByPosition_Some.
  - apply getTabGroupByPosition_None.
  - intros g db' Hcreate.
    apply createTabGroup_resolved in Hcreate as (Hfresh & Hfree & ->).
    apply getTabGroupByPosition_Some.
    + destruct Hwf as [Hkeyed Huniq].
      by apply (insert_keeps_invariants tg_id workspaceId_position
                  workspaceId_position_sym).
    + split; [|done]. exists (tg_id g). apply lookup_insert_eq.
Qed.

Lemma getTabGroupByPosition_finds_witness :
  (∀ g, getTabGroupByPosition Sample.two_groups "w1" 1 = Resolved (Some g) ↔
        (∃ id, tabGroups Sample.two_groups !! id = Some g)
        ∧ tg_workspaceId g = "w1" ∧ tg_position g = 1)
  ∧ (getTabGroupByPosition Sample.two_groups "w1" 1 = Resolved None ↔
     ∀ id g, tabGroups Sample.two_groups !! id = Some g →
       ¬ (tg_workspaceId g = "w1" ∧ tg_position g = 1))
  ∧ (∀ g db', createTabGroup Sample.two_groups g = (Resolved tt, db') →
       getTabGroupByPosition db' (tg_workspaceId g) (tg_position g)
       = Resolved (Some g)).
Proof.
  apply (getTabGroupByPosition_finds Sample.two_groups "w1" 1).
  apply wf_tabGroups_checked; vm_compute; reflexivity.
Defined.

(** X12 (an archived group keeps its place). After archiveTabGroup the
    group is still the one getTabGroupByPosition finds at its slot, a
    createTabGroup of another id at that slot is still rejected,
    getTabGroupsByWorkspace still lists the group and
    getActiveTabGroupsByWorkspace no longer does. *)
Theorem archived_group_keeps_slot now db id g :
  wf_database db → tabGroups db !! id = Some g →
  getTabGroupByPosition (archiveTabGroup now db id).2
      (tg_workspaceId g) (tg_position g)
    = Resolved (Some (archivedTabGroup now g))
  ∧ (∀ g', tg_id g' ≠ id → tg_workspaceId g' = tg_workspaceId g →
       tg_position g' = tg_position g →
       createTabGroup (archiveTabGroup now db id).2 g' =
         (Rejected (Error ("Tab group with ID '" +:+ tg_id g'
                           +:+ "' already exists")),
          (archiveTabGroup now db id).2))
  ∧ ∃ all active,
      getTabGroupsByWorkspace (archiveTabGroup now db id).2 (tg_workspaceId g)
        = Resolved all
      ∧ getActiveTabGroupsByWorkspace (archiveTabGroup now db id).2
          (tg_workspaceId g) = Resolved active
      ∧ archivedTabGroup now g ∈ all
      ∧ ∀ g', g' ∈ active → tg_id g' ≠ id.
Proof.
  intros Hwf Hg. pose proof Hwf as (_ & Hwfg & _ & _).
  pose proof (wf_tabGroups_after_write db (ArchiveTabGroup now id) Hwf) as Hwf1.
  simpl in Hwf1.
  rewrite (archiveTabGroup_written now db id g Hwfg Hg) in *. cbn [snd] in *.
  split; [|split].
  - apply getTabGroupByPosition_Some; [done|]. split; [|done].
    exists id. apply lookup_insert_eq.
  - intros g' Hne Hw Hp. apply createTabGroup_refused. right.
    exists id, (archivedTabGroup now g). simpl.
    rewrite lookup_insert_eq. repeat split; congruence.
  - exists (index_getAll (λ g0, VString (tg_workspaceId g0))
              (VString (tg_workspaceId g))
              (<[id := archivedTabGroup now g]> (tabGroups db))).
    eexists. split; [reflexivity|]. split; [reflexivity|]. split.
    + apply (proj2 (elem_of_index_getAll tg_id workspaceId_position _ _ _ _)).
      split; [|done]. exists id. apply lookup_insert_eq.
    + intros g' Hin Hid. apply list_elem_of_filter in Hin as [Hactive Hin].
      apply (proj1 (elem_of_index_getAll tg_id workspaceId_position _ _ _ _)) in Hin
        as ([k Hk] & _).
      destruct Hwf1 as [Hkeyed _]. pose proof (Hkeyed k g' Hk) as Hkey.
      simpl in Hk. rewrite <- Hkey, Hid, lookup_insert_eq in Hk.
      injection Hk as <-. done.
Qed.

Lemma archived_group_keeps_slot_witness :
  getTabGroupByPosition (archiveTabGroup 7 Sample.two_groups "g2").2 "w1" 1
    = Resolved (Some (archivedTabGroup 7 (Sample.group "g2" "w1" 1 false)))
  ∧ (∀ g', tg_id g' ≠ "g2" → tg_workspaceId g' = "w1" → tg_position g' = 1 →
       createTabGroup (archiveTabGroup 7 Sample.two_groups "g2").2 g' =
         (Rejected (Error ("Tab group with ID '" +:+ tg_id g'
                           +:+ "' already exists")),
          (archiveTabGroup 7 Sample.two_groups "g2").2))
  ∧ ∃ all active,
      getTabGroupsByWorkspace (archiveTabGroup 7 Sample.two_groups "g2").2 "w1"
        = Resolved all
      ∧ getActiveTabGroupsByWorkspace (archiveTabGroup 7 Sample.two_groups "g2").2
          "w1" = Resolved active
      ∧ archivedTabGroup 7 (Sample.group "g2" "w1" 1 false) ∈ all
      ∧ ∀ g', g' ∈ active → tg_id g' ≠ "g2".
Proof.
  apply (archived_group_keeps_slot 7 Sample.two_groups "g2"
           (Sample.group "g2" "w1" 1 false)
           ltac:(apply wf_database_checked; vm_compute; reflexivity)
           ltac:(vm_compute; reflexivity)).
Defined.

(** ** The trash *)

(** X13 (expired or not). Every tombstone is in exactly one of
    getNonExpiredDeletedItems and getExpiredDeletedItems: together the two
    lists are a rearrangement of getAllDeletedItems, a tombstone deleted
    less than 14 days ago is in the first and one deleted 14 days ago or
    earlier, the one deleted exactly 14 days ago included, is in the
    second. *)
Theorem expired_or_not now db :
  ∃ recent expired all,
    getNonExpiredDeletedItems now db = Resolved recent
    ∧ getExpiredDeletedItems now db = Resolved expired
    ∧ getAllDeletedItems db = Resolved all
    ∧ recent ++ expired ≡ₚ all
    ∧ (∀ item, item ∈ recent ↔
         item ∈ all ∧ (now - 14 * 24 * 60 * 60 * 1000 < di_deletedAt item)%Z)
    ∧ (∀ item, item ∈ expired ↔
         item ∈ all ∧ (di_deletedAt item ≤ now - 14 * 24 * 60 * 60 * 1000)%Z).
Proof.
  eexists _, _, _. split; [reflexivity|]. split; [reflexivity|].
  split; [reflexivity|]. unfold js_or. simpl. split; [|split].
  - rewrite <- (filter_app_complement
                 (λ item, isWithinRetentionPeriod now (di_deletedAt item) = true)
                 (getAll (deletedItems db))) at 3.
    apply Permutation_app; [done|].
    apply reflexive_eq, list_filter_iff. intros item.
    rewrite negb_true_iff. by destruct (isWithinRetentionPeriod _ _).
  - intros item. rewrite list_elem_of_filter, retention_cutoff. split.
    + intros [? ?]. split; [done|lia].
    + intros [? ?]. split; [lia|done].
  - intros item. rewrite list_elem_of_filter, negb_true_iff.
    rewrite <- not_true_iff_false, retention_cutoff. split.
    + intros [? ?]. split; [done|lia].
    + intros [? ?]. split; [lia|done].
Qed.

Lemma cleanup_touches_only_the_trash now deleteFails db :
  workspaces (cleanupExpiredDeletedItems now deleteFails db).2 = workspaces db
  ∧ tabGroups (cleanupExpiredDeletedItems now deleteFails db).2 = tabGroups db
  ∧ tabs (cleanupExpiredDeletedItems now deleteFails db).2 = tabs db.
Proof.
  unfold cleanupExpiredDeletedItems. destruct (Nat.eqb _ 0); [done|].
  simpl. by destruct (sw_aborted _).
Qed.

(** X14 (the sweep when no delete fails). cleanupExpiredDeletedItems
    resolves with the number of tombstones deleted more than 14 days ago
    and leaves in the trash exactly the others; the three entity stores
    are untouched; a second sweep at the same time resolves with 0 and
    changes nothing.  A tombstone deleted exactly 14 days ago survives the
    sweep although getExpiredDeletedItems lists it: after the sweep that
    listing holds exactly the tombstones of that age. *)
Theorem sweep_removes_old_items now db :
  wf_deletedItems db →
  (cleanupExpiredDeletedItems now (λ _, false) db).1 =
    Resolved (length (filter (λ item, (di_deletedAt item
                                       < now - 14 * 24 * 60 * 60 * 1000)%Z)
                             (getAll (deletedItems db))))
  ∧ (∀ id item,
       deletedItems (cleanupExpiredDeletedItems now (λ _, false) db).2 !! id
         = Some item
       ↔ deletedItems db !! id = Some item
         ∧ (now - 14 * 24 * 60 * 60 * 1000 ≤ di_deletedAt item)%Z)
  ∧ (workspaces (cleanupExpiredDeletedItems now (λ _, false) db).2 = workspaces db
     ∧ tabGroups (cleanupExpiredDeletedItems now (λ _, false) db).2 = tabGroups db
     ∧ tabs (cleanupExpiredDeletedItems now (λ _, false) db).2 = tabs db)
  ∧ cleanupExpiredDeletedItems now (λ _, false)
      (cleanupExpiredDeletedItems now (λ _, false) db).2
    = (Resolved 0%nat, (cleanupExpiredDeletedItems now (λ _, false) db).2)
  ∧ ∃ expired,
      getExpiredDeletedItems now (cleanupExpiredDeletedItems now (λ _, false) db).2
        = Resolved expired
      ∧ ∀ item, item ∈ expired ↔
          (∃ id, deletedItems db !! id = Some item)
          ∧ di_deletedAt item = now - 14 * 24 * 60 * 60 * 1000.
Proof.
  intros [Hkeyed _].
  destruct (cleanup_without_failure now db Hkeyed) as [Hcount Hleft].
  set (swept := (cleanupExpiredDeletedItems now (λ _, false) db).2) in *.
  assert (Hstays : ∀ id item,
            deletedItems swept !! id = Some item
            ↔ deletedItems db !! id = Some item
              ∧ (now - 14 * 24 * 60 * 60 * 1000 ≤ di_deletedAt item)%Z).
  { intros id item. rewrite Hleft.
    destruct (deletedItems db !! id) as [item'|]; [|by split; [|intros [? _]]].
    case_decide; split.
    - done.
    - intros [[= ->] ?]. lia.
    - intros [= ->]. split; [done|lia].
    - by intros [[= ->] _]. }
  split; [done|]. split; [done|].
  split; [apply cleanup_touches_only_the_trash|]. split.
  - unfold cleanupExpiredDeletedItems at 1.
    assert (filter (λ item, (di_deletedAt item < now - 14 * 24 * 60 * 60 * 1000)%Z)
              (getAll (deletedItems swept)) = []) as ->; [|done].
    apply elem_of_nil_inv. intros item Hin.
    apply list_elem_of_filter in Hin as [Hold Hin].
    apply elem_of_getAll in Hin as [id Hid].
    apply Hstays in Hid as [_ ?]. lia.
  - eexists. split; [reflexivity|]. intros item. unfold js_or. simpl.
    rewrite list_elem_of_filter, negb_true_iff, <- not_true_iff_false,
      retention_cutoff, elem_of_getAll.
    split.
    + intros [Hexp [id Hid]]. apply Hstays in Hid as [Hid ?].
      split; [eauto|lia].
    + intros [[id Hid] Hage]. split; [lia|].
      exists id. apply Hstays. split; [done|lia].
Qed.

Lemma wf_deletedItems_checked db :
  keyedb di_id (deletedItems db) = true → wf_deletedItems db.
Proof.
  intros Hk. split; [by apply keyedb_keyed|].
  intros k1 r1 k2 r2 _ _ _. reflexivity.
Qed.

Lemma sweep_removes_old_items_witness :
  (cleanupExpiredDeletedItems Sample.now (λ _, false) Sample.sweepable).1 =
    Resolved (length (filter (λ item, (di_deletedAt item
                                       < Sample.now - 14 * 24 * 60 * 60 * 1000)%Z)
                             (getAll (deletedItems Sample.sweepable)))).
Proof.
  apply (proj1 (sweep_removes_old_items Sample.now Sample.sweepable
                  ltac:(apply wf_deletedItems_checked; vm_compute; reflexivity))).
Defined.

(** X15 (delete forever). permanentlyDeleteItem always resolves with
    [true]; afterwards the tombstone reads as [null], every other
    tombstone and the three entity stores are as before, a second call
    changes nothing, the database is the one deleteDeletedItem leaves, and
    restoreDeletedItem of the id is rejected with "Deleted item not
    found". *)
Theorem permanentlyDeleteItem_removes db id :
  (permanentlyDeleteItem db id).1 = Resolved true
  ∧ getDeletedItem (permanentlyDeleteItem db id).2 id = Resolved None
  ∧ (∀ id', id' ≠ id →
       getDeletedItem (permanentlyDeleteItem db id).2 id' = getDeletedItem db id')
  ∧ (workspaces (permanentlyDeleteItem db id).2 = workspaces db
     ∧ tabGroups (permanentlyDeleteItem db id).2 = tabGroups db
     ∧ tabs (permanentlyDeleteItem db id).2 = tabs db)
  ∧ permanentlyDeleteItem (permanentlyDeleteItem db id).2 id
    = (Resolved true, (permanentlyDeleteItem db id).2)
  ∧ (permanentlyDeleteItem db id).2 = (deleteDeletedItem db id).2
  ∧ ∀ now, restoreDeletedItem now (permanentlyDeleteItem db id).2 id
           = (Rejected (Error "Deleted item not found"),
              (permanentlyDeleteItem db id).2).
Proof.
  unfold permanentlyDeleteItem, getDeletedItem, delete_key. simpl.
  split; [done|]. split; [|split; [|split; [done|split; [|split; [done|]]]]].
  - by rewrite get_record_lookup, lookup_delete_eq.
  - intros id' Hne. by rewrite !get_record_lookup, lookup_delete_ne.
  - by rewrite delete_delete_eq.
  - intros now. unfold restoreDeletedItem, get. simpl.
    by rewrite lookup_delete_eq.
Qed.




(** *** Newest first *)
Lemma insert_by_date_Permutation item sorted :
  insert_by_date item sorted ≡ₚ item :: sorted.
Proof.
  induction sorted as [|other rest IH]; [done|]. simpl.
  destruct (di_deletedAt item <? di_deletedAt other)%Z; [|done].
  rewrite IH. apply Permutation_swap.
Qed.

Lemma sort_newest_first_Permutation items : sort_newest_first items ≡ₚ items.
Proof.
  induction items as [|item items IH]; [done|]. simpl.
  by rewrite insert_by_date_Permutation, IH.
Qed.

Lemma insert_by_date_sorted item sorted :
  StronglySorted (λ a b, (di_deletedAt b ≤ di_deletedAt a)%Z) sorted →
  StronglySorted (λ a b, (di_deletedAt b ≤ di_deletedAt a)%Z)
                 (insert_by_date item sorted).
Proof.
  induction 1 as [|other rest Hrest IH Hall]; simpl.
  - repeat constructor.
  - destruct (di_deletedAt item <? di_deletedAt other)%Z eqn:Hlt.
    + apply Z.ltb_lt in Hlt. constructor; [done|].
      rewrite insert_by_date_Permutation. constructor; [lia|done].
    + apply Z.ltb_ge in Hlt. constructor; [by constructor|].
      constructor; [done|].
      eapply Forall_impl; [exact Hall|]. simpl. intros. lia.
Qed.

Lemma sort_newest_first_sorted items :
  StronglySorted (λ a b, (di_deletedAt b ≤ di_deletedAt a)%Z)
                 (sort_newest_first items).
Proof.
  induction items as [|item items IH]; [constructor|].
  simpl. by apply insert_by_date_sorted.
Qed.

Lemma insert_by_date_same_date date item sorted :
  filter (λ x, di_deletedAt x = date) (insert_by_date item sorted)
  = filter (λ x, di_deletedAt x = date) (item :: sorted).
Proof.
  induction sorted as [|other rest IH]; [done|]. simpl.
  destruct (di_deletedAt item <? di_deletedAt other)%Z eqn:Hlt; [|done].
  apply Z.ltb_lt in Hlt. rewrite (filter_cons _ other), IH, !filter_cons.
  repeat case_decide; try done. lia.
Qed.

Lemma sort_newest_first_stable date items :
  filter (λ x, di_deletedAt x = date) (sort_newest_first items)
  = filter (λ x, di_deletedAt x = date) items.
Proof.
  induction items as [|item items IH]; [done|]. simpl.
  by rewrite insert_by_date_same_date, !filter_cons, IH.
Qed.

(** X17 (the trash, newest first). getDeletedItemsSortedByDate resolves
    with a rearrangement of getAllDeletedItems in which no item comes
    before one deleted later, and in which the items of one deletion date
    keep the order they have in getAllDeletedItems. *)
Theorem sorted_by_date db :
  ∃ sorted all,
    getDeletedItemsSortedByDate db = Resolved sorted
    ∧ getAllDeletedItems db = Resolved all
    ∧ sorted ≡ₚ all
    ∧ StronglySorted (λ a b, (di_deletedAt b ≤ di_deletedAt a)%Z) sorted
    ∧ ∀ date, filter (λ x, di_deletedAt x = date) sorted
              = filter (λ x, di_deletedAt x = date) all.
Proof.
  exists (sort_newest_first (getAll (deletedItems db))), (getAll (deletedItems db)).
  split; [done|]. split; [done|]. split; [apply sort_newest_first_Permutation|].
  split; [apply sort_newest_first_sorted|]. intros date.
  apply sort_newest_first_stable.
Qed.

(** ** The full listings *)
Section ListingOrder.
Context {A : Type}.
Variable keyPath : A → string.

Lemma key_le_total : Total (@key_le A).
Proof. intros a b. unfold key_le. apply String.leb_total. Qed.

Lemma Sorted_entries (s : gmap string A) : Sorted key_le (entries s).
Proof. unfold entries. apply Sorted_merge_sort, key_le_total. Qed.

Lemma Sorted_values (l : list (string * A)) :
  (∀ kv, kv ∈ l → keyPath kv.2 = kv.1) →
  Sorted key_le l →
  Sorted (λ a b, String.leb (keyPath a) (keyPath b) = true) (l.*2).
Proof.
  intros Hkeyed Hsorted. induction Hsorted as [|kv l Hl IH Hhd]; [constructor|].
  simpl. constructor.
  - apply IH. intros kv' Hin. apply Hkeyed. by right.
  - destruct Hhd as [|kv' l' Hle]; constructor. simpl.
    rewrite (Hkeyed kv) by left. rewrite (Hkeyed kv') by (right; left).
    exact Hle.
Qed.

Lemma getAll_listed (s : gmap string A) :
  keyed keyPath s → listed_in_id_order keyPath s (getAll s).
Proof.
  intros Hkeyed.
  assert (Hentries : ∀ kv, kv ∈ entries s → keyPath kv.2 = kv.1).
  { intros [k r] Hin. apply elem_of_entries in Hin. simpl. eauto. }
  split; [|split; [|split]].
  - intros r. apply elem_of_getAll.
  - unfold getAll. rewrite <- list_fmap_compose.
    rewrite (list_fmap_ext (keyPath ∘ snd) fst (entries s)).
    + unfold entries. rewrite merge_sort_Permutation.
      apply NoDup_fst_map_to_list.
    + intros i kv Hi. apply Hentries. by eapply list_elem_of_lookup_2.
  - unfold getAll. apply Sorted_values; [done|apply Sorted_entries].
  - apply length_getAll.
Qed.
End ListingOrder.

(** X18 (the full listings). In a database that keeps the invariants
    getAllWorkspaces, getAllTabGroups, getAllTabs and getAllDeletedItems
    resolve with every record of their store exactly once, in ascending
    order of id. *)
Theorem getAll_lists_in_id_order db :
  wf_database db →
  ∃ ws gs ts ds,
    getAllWorkspaces db = Resolved ws
    ∧ getAllTabGroups db = Resolved gs
    ∧ getAllTabs db = Resolved ts
    ∧ getAllDeletedItems db = Resolved ds
    ∧ listed_in_id_order ws_id (workspaces db) ws
    ∧ listed_in_id_order tg_id (tabGroups db) gs
    ∧ listed_in_id_order tab_id (tabs db) ts
    ∧ listed_in_id_order di_id (deletedItems db) ds.
Proof.
  intros ([Hw _] & [Hg _] & [Ht _] & [Hd _]).
  exists (getAll (workspaces db)), (getAll (tabGroups db)),
         (getAll (tabs db)), (getAll (deletedItems db)).
  do 4 (split; [reflexivity|]).
  split; [by apply getAll_listed|]. split; [by apply getAll_listed|].
  split; by apply getAll_listed.
Qed.

Lemma getAll_lists_in_id_order_witness :
  ∃ ws gs ts ds,
    getAllWorkspaces Sample.two_groups_six_tabs = Resolved ws
    ∧ getAllTabGroups Sample.two_groups_six_tabs = Resolved gs
    ∧ getAllTabs Sample.two_groups_six_tabs = Resolved ts
    ∧ getAllDeletedItems Sample.two_groups_six_tabs = Resolved ds
    ∧ listed_in_id_order ws_id (workspaces Sample.two_groups_six_tabs) ws
    ∧ listed_in_id_order tg_id (tabGroups Sample.two_groups_six_tabs) gs
    ∧ listed_in_id_order tab_id (tabs Sample.two_groups_six_tabs) ts
    ∧ listed_in_id_order di_id (deletedItems Sample.two_groups_six_tabs) ds.
Proof.
  apply (getAll_lists_in_id_order Sample.two_groups_six_tabs).
  apply wf_database_checked; vm_compute; reflexivity.
Defined.

(** ** Search *)
Lemma prefix_empty s : String.prefix EmptyString s = true.
Proof. by destruct s. Qed.

Lemma includes_empty s : includes s EmptyString = true.
Proof. destruct s; simpl; by rewrite ?prefix_empty. Qed.

Lemma lower_code_unit_twice c :
  lower_code_unit (lower_code_unit c) = lower_code_unit c.
Proof. destruct c as [[] [] [] [] [] [] [] []]; vm_compute; reflexivity. Qed.

Lemma toLowerCase_twice s : toLowerCase (toLowerCase s) = toLowerCase s.
Proof.
  induction s as [|c s IH]; [done|]. simpl.
  by rewrite lower_code_unit_twice, IH.
Qed.



Lemma matches_search_empty t : matches_search EmptyString t = true.
Proof. unfold matches_search. simpl. by rewrite includes_empty. Qed.

Lemma filter_all {A} (P : A → Prop) `{∀ x, Decision (P x)} (l : list A) :
  (∀ x, P x) → filter P l = l.
Proof.
  intros Hall. induction l as [|x l IH]; [done|].
  rewrite filter_cons, decide_True by done. by rewrite IH.
Qed.

Lemma truthy_string_Some groupId :
  groupId ≠ EmptyString → truthy_string (Some groupId) = true.
Proof.
  intros Hne. simpl. apply negb_true_iff. by apply String.eqb_neq.
Qed.

(** X19 (what a search looks through). searchTabs with the empty string
    as groupId looks through all tabs, like a search without groupId, and
    not through the tabs whose groupId is the empty string.  With the
    empty search term it resolves with everything in its scope:
    getAllTabs, or getTabsByGroup for a non-empty groupId.  In general it
    resolves with the tabs of its scope whose title or url matches, in
    the order of the scope. *)
Theorem search_scope db searchTerm :
  searchTabs db searchTerm (Some EmptyString) = searchTabs db searchTerm None
  ∧ searchTabs db EmptyString None = getAllTabs db
  ∧ (∃ all, getAllTabs db = Resolved all
       ∧ searchTabs db searchTerm None
         = Resolved (filter (λ t, matches_search searchTerm t = true) all))
  ∧ ∀ groupId, groupId ≠ EmptyString →
      searchTabs db EmptyString (Some groupId) = getTabsByGroup db groupId
      ∧ ∃ all, getTabsByGroup db groupId = Resolved all
          ∧ searchTabs db searchTerm (Some groupId)
            = Resolved (filter (λ t, matches_search searchTerm t = true) all).
Proof.
  split; [reflexivity|]. split; [|split].
  - unfold searchTabs, getAllTabs, getAll_records. simpl.
    rewrite filter_all; [done|]. apply matches_search_empty.
  - eexists. split; reflexivity.
  - intros groupId Hne. unfold searchTabs.
    rewrite truthy_string_Some by done. simpl. split.
    + unfold getTabsByGroup. rewrite filter_all; [done|].
      apply matches_search_empty.
    + eexists. split; reflexivity.
Qed.

Lemma matches_search_lower searchTerm t :
  matches_search (toLowerCase searchTerm) t = matches_search searchTerm t.
Proof. unfold matches_search. by rewrite toLowerCase_twice. Qed.



(** ** Queries through an index *)

(** X21 (the default workspace). getDefaultWorkspace never resolves: it
    asks the [isDefault] index for the key [true], which is not a key, so
    the promise is rejected with the [DataError] that
    [IDBKeyRange.only(true)] throws, also when a workspace with
    [isDefault = true] is stored (and right after createWorkspace stored
    one). *)
Theorem getDefaultWorkspace_is_rejected db :
  getDefaultWorkspace db = Rejected (Thrown DataError)
  ∧ ∀ w, ws_isDefault w = true →
      getDefaultWorkspace (createWorkspace db w).2 = Rejected (Thrown DataError).
Proof. split; [reflexivity|]. intros w _. reflexivity. Qed.

(** X22 (a workspace without active groups). When every stored group of
    the workspace is archived, or the workspace has no group at all,
    getWorkSpaceCount resolves with 0, whatever tabs are stored. *)
Theorem getWorkSpaceCount_without_active_group db workspaceId :
  (∀ id g, tabGroups db !! id = Some g → tg_workspaceId g = workspaceId →
           tg_isArchived g = true) →
  getWorkSpaceCount db workspaceId = Resolved 0%nat.
Proof.
  intros Harchived. unfold getWorkSpaceCount.
  assert (filter (λ g, negb (tg_isArchived g) = true)
            (index_getAll (λ g, VString (tg_workspaceId g)) (VString workspaceId)
               (tabGroups db)) = []) as ->; [|done].
  apply elem_of_nil_inv. intros g Hin.
  apply list_elem_of_filter in Hin as [Hactive Hin].
  apply (proj1 (elem_of_index_getAll tg_id workspaceId_position _ _ _ _)) in Hin
    as ([id Hid] & _ & [= Hw]).
  rewrite (Harchived id g Hid Hw) in Hactive. done.
Qed.

Lemma getWorkSpaceCount_without_active_group_witness :
  getWorkSpaceCount Disk.only_archived "w1" = Resolved 0%nat.
Proof.
  apply (getWorkSpaceCount_without_active_group Disk.only_archived "w1").
  intros id g Hid Hw.
  assert (∀ g', g' ∈ getAll (tabGroups Disk.only_archived) →
            tg_isArchived g' = true) as Hall.
  { vm_compute getAll. intros g' Hin.
    repeat (apply elem_of_cons in Hin as [->|Hin]; [reflexivity|]).
    by apply elem_of_nil in Hin. }
  apply Hall. apply elem_of_getAll. eauto.
Defined.

(** X23 (the children of a parent). getTabsByGroup resolves with exactly
    the stored tabs whose groupId is the one asked, getActiveTabsByGroup
    with those of them that are not archived, in the same order, and
    getTabCount with the number of the latter; likewise
    getTabGroupsByWorkspace and getActiveTabGroupsByWorkspace for the
    groups of a workspace. *)
Theorem children_of_a_parent db parentId :
  (∃ all active,
     getTabsByGroup db parentId = Resolved all
     ∧ getActiveTabsByGroup db parentId = Resolved active
     ∧ getTabCount db parentId = Resolved (length active)
     ∧ active = filter (λ t, tab_isArchived t = false) all
     ∧ ∀ t, t ∈ all ↔ (∃ id, tabs db !! id = Some t) ∧ tab_groupId t = parentId)
  ∧ (∃ all active,
     getTabGroupsByWorkspace db parentId = Resolved all
     ∧ getActiveTabGroupsByWorkspace db parentId = Resolved active
     ∧ active = filter (λ g, tg_isArchived g = false) all
     ∧ ∀ g, g ∈ all ↔ (∃ id, tabGroups db !! id = Some g)
                       ∧ tg_workspaceId g = parentId).
Proof.
  split.
  - exists (index_getAll (λ t, VString (tab_groupId t)) (VString parentId) (tabs db)).
    eexists. split; [reflexivity|]. split; [reflexivity|]. split; [reflexivity|].
    split.
    + apply list_filter_iff. intros t. apply negb_true_iff.
    + intros t.
      rewrite (elem_of_index_getAll tab_id groupId_position). simpl.
      split; [by intros (? & _ & [= ?])|by intros [? ->]].
  - exists (index_getAll (λ g, VString (tg_workspaceId g)) (VString parentId)
              (tabGroups db)).
    eexists. split; [reflexivity|]. split; [reflexivity|]. split.
    + apply list_filter_iff. intros g. apply negb_true_iff.
    + intros g.
      rewrite (elem_of_index_getAll tg_id workspaceId_position). simpl.
      split; [by intros (? & _ & [= ?])|by intros [? ->]].
Qed.

(** ** Opening the database *)

Ltac upgraded :=
  cbv beta iota zeta delta [create_missing_stores delete_old_stores contains negb st_workspaces st_tabGroups st_tabs st_deletedItems sd_stores sd_version].

Lemma onupgradeneeded_all_stores oldVersion db :
  all_stores_exist (onupgradeneeded oldVersion db).
Proof.
  unfold all_stores_exist, onupgradeneeded.
  destruct (oldVersion <? 3)%Z; destruct db as [[w|] [g|] [t|] [d|]];
    upgraded; repeat split; eexists; reflexivity.
Qed.

(** X24 (opening). getDatabase is rejected exactly when the stored
    version is above 4.  Opening a database of a lower version (a database
    that does not exist yet has version 0) gives version 4 with the four
    stores present, and opening the result again changes nothing.  A
    database that did not exist gets four empty stores, the tab group and
    tab stores with their unique index on (parent, position). *)
Theorem getDatabase_opens disk :
  (is_rejected (getDatabase disk) = true ↔ (4 < sd_version disk)%Z)
  ∧ (∀ opened, (sd_version disk < 4)%Z → getDatabase disk = Resolved opened →
       sd_version opened = 4
       ∧ all_stores_exist (sd_stores opened)
       ∧ getDatabase opened = Resolved opened)
  ∧ getDatabase not_created =
      Resolved {| sd_version := 4;
                  sd_stores :=
                    {| st_workspaces := Some (createObjectStore workspaceIndexes);
                       st_tabGroups := Some (createObjectStore tabGroupIndexes);
                       st_tabs := Some (createObjectStore tabIndexes);
                       st_deletedItems :=
                         Some (createObjectStore deletedItemIndexes) |} |}
  ∧ has_unique_index (Some (createObjectStore (A := TabGroup) tabGroupIndexes))
      "workspaceId_position" ["workspaceId"; "position"]
  ∧ has_unique_index (Some (createObjectStore (A := Tab) tabIndexes))
      "groupId_position" ["groupId"; "position"].
Proof.
  split; [|split; [|split; [reflexivity|split]]].
  - unfold getDatabase, DB_VERSION.
    destruct (4 <? sd_version disk)%Z eqn:Habove.
    + apply Z.ltb_lt in Habove. by split.
    + apply Z.ltb_ge in Habove.
      destruct (sd_version disk <? 4)%Z; simpl; split; (done || lia).
  - intros opened Hbelow. unfold getDatabase, DB_VERSION.
    destruct (4 <? sd_version disk)%Z eqn:Habove;
      [apply Z.ltb_lt in Habove; lia|].
    destruct (sd_version disk <? 4)%Z eqn:Hlt;
      [|apply Z.ltb_ge in Hlt; lia].
    intros [= <-]. cbn [sd_stores sd_version].
    split; [reflexivity|]. split; [apply onupgradeneeded_all_stores|].
    reflexivity.
  - eexists. split; [reflexivity|]. unfold createObjectStore, tabGroupIndexes.
    simpl. set_solver.
  - eexists. split; [reflexivity|]. unfold createObjectStore, tabIndexes.
    simpl. set_solver.
Qed.

Lemma getDatabase_opens_witness :
  sd_version
    {| sd_version := 4;
       sd_stores := onupgradeneeded 3 (sd_stores Disk.version3) |} = 4
  ∧ all_stores_exist (onupgradeneeded 3 (sd_stores Disk.version3))
  ∧ getDatabase {| sd_version := 4;
                   sd_stores := onupgradeneeded 3 (sd_stores Disk.version3) |}
    = Resolved {| sd_version := 4;
                  sd_stores := onupgradeneeded 3 (sd_stores Disk.version3) |}.
Proof.
  apply (proj1 (proj2 (getDatabase_opens Disk.version3))
           {| sd_version := 4;
              sd_stores := onupgradeneeded 3 (sd_stores Disk.version3) |}).
  - vm_compute; reflexivity.
  - reflexivity.
Defined.

(** X25 (upgrading from below version 3). Opening a database whose
    version is below 3 leaves the tab group store and the tab store empty,
    with the indexes of version 4, whatever records they held: these
    records are gone.  A workspace store or a trash that existed is kept
    as it was. *)
Theorem upgrade_below_3_drops_groups_and_tabs disk opened :
  (sd_version disk < 3)%Z → getDatabase disk = Resolved opened →
  st_tabGroups (sd_stores opened) = Some (createObjectStore tabGroupIndexes)
  ∧ st_tabs (sd_stores opened) = Some (createObjectStore tabIndexes)
  ∧ (∀ s, st_workspaces (sd_stores disk) = Some s →
          st_workspaces (sd_stores opened) = Some s)
  ∧ (∀ s, st_deletedItems (sd_stores disk) = Some s →
          st_deletedItems (sd_stores opened) = Some s).
Proof.
  intros Hbelow. unfold getDatabase, DB_VERSION.
  destruct (4 <? sd_version disk)%Z eqn:Habove; [apply Z.ltb_lt in Habove; lia|].
  destruct (sd_version disk <? 4)%Z eqn:Hlt; [|apply Z.ltb_ge in Hlt; lia].
  intros [= <-]. unfold onupgradeneeded.
  assert ((sd_version disk <? 3)%Z = true) as -> by by apply Z.ltb_lt.
  destruct disk as [v [[w|] [g|] [t|] [d|]]]; upgraded;
    repeat split; first [reflexivity | intros ? [= <-]; reflexivity | intros [=]].
Qed.

Lemma upgrade_below_3_drops_groups_and_tabs_witness :
  st_tabGroups (onupgradeneeded 2 (sd_stores Disk.version2))
    = Some (createObjectStore tabGroupIndexes)
  ∧ st_tabs (onupgradeneeded 2 (sd_stores Disk.version2))
    = Some (createObjectStore tabIndexes).
Proof.
  pose proof (upgrade_below_3_drops_groups_and_tabs Disk.version2
                {| sd_version := 4;
                   sd_stores := onupgradeneeded 2 (sd_stores Disk.version2) |}
                ltac:(vm_compute; reflexivity) eq_refl) as (Hg & Ht & _).
  split; [exact Hg|exact Ht].
Defined.

(** X26 (upgrading from version 3). Opening a version 3 database keeps
    every store that exists, records and indexes, and creates the missing
    ones empty: no record is lost on the way to version 4. *)
Theorem upgrade_from_3_keeps_stores disk opened :
  sd_version disk = 3 → getDatabase disk = Resolved opened →
  (∀ s, st_workspaces (sd_stores disk) = Some s →
        st_workspaces (sd_stores opened) = Some s)
  ∧ (∀ s, st_tabGroups (sd_stores disk) = Some s →
          st_tabGroups (sd_stores opened) = Some s)
  ∧ (∀ s, st_tabs (sd_stores disk) = Some s →
          st_tabs (sd_stores opened) = Some s)
  ∧ (∀ s, st_deletedItems (sd_stores disk) = Some s →
          st_deletedItems (sd_stores opened) = Some s)
  ∧ (st_workspaces (sd_stores disk) = None →
     st_workspaces (sd_stores opened) = Some (createObjectStore workspaceIndexes))
  ∧ (st_tabGroups (sd_stores disk) = None →
     st_tabGroups (sd_stores opened) = Some (createObjectStore tabGroupIndexes))
  ∧ (st_tabs (sd_stores disk) = None →
     st_tabs (sd_stores opened) = Some (createObjectStore tabIndexes))
  ∧ (st_deletedItems (sd_stores disk) = None →
     st_deletedItems (sd_stores opened)
     = Some (createObjectStore deletedItemIndexes)).
Proof.
  intros Hv. unfold getDatabase, DB_VERSION. rewrite Hv.
  change (4 <? 3)%Z with false. change (3 <? 4)%Z with true.
  intros [= <-]. unfold onupgradeneeded. change (3 <? 3)%Z with false.
  destruct disk as [v [[w|] [g|] [t|] [d|]]]; upgraded;
    repeat split; first [reflexivity | intros ? [= <-]; reflexivity | intros [=]].
Qed.

Lemma upgrade_from_3_keeps_stores_witness :
  st_tabGroups (onupgradeneeded 3 (sd_stores Disk.version3))
    = st_tabGroups (sd_stores Disk.version3)
  ∧ st_workspaces (onupgradeneeded 3 (sd_stores Disk.version3))
    = Some (createObjectStore workspaceIndexes).
Proof.
  pose proof (upgrade_from_3_keeps_stores Disk.version3
                {| sd_version := 4;
                   sd_stores := onupgradeneeded 3 (sd_stores Disk.version3) |}
                eq_refl eq_refl) as (_ & Hg & _ & _ & Hw & _).
  split; [by apply Hg|by apply Hw].
Defined.

(** ** testDatabase *)

(** The run up to the cleanup: the three records are stored one after
    the other. *)
Lemma testDatabase_steps clock w g t db :
  testDatabase clock w g t db =
  match add ws_id no_unique_index (workspaces db) (testWorkspace clock w) with
  | Failure error => (Rejected (Thrown error), db)
  | Success _ =>
    let db1 :=
      with_workspaces db (<[w := renamed (testWorkspace clock w)]> (workspaces db)) in
    match add tg_id workspaceId_position (tabGroups db) (testGroup clock g w) with
    | Failure error => (Rejected (Thrown error), db1)
    | Success sg =>
      let db2 := with_tabGroups db1 sg in
      match add tab_id groupId_position (tabs db) (testTab clock t g) with
      | Failure error => (Rejected (Thrown error), db2)
      | Success st =>
          (Resolved tt,
           {| workspaces := delete_key (workspaces db1) w;
              tabGroups := delete_key sg g;
              tabs := delete_key st t;
              deletedItems := deletedItems db |})
      end
    end
  end.
Proof.
  unfold testDatabase.
  destruct (add ws_id _ _ _) as [s|e] eqn:Hadd; [|done].
  apply add_Success in Hadd as (_ & _ & ->).
  cbn [workspaces with_workspaces tabGroups tabs deletedItems ws_id testWorkspace].
  unfold get. rewrite lookup_insert_eq.
  unfold put. rewrite no_unique_index_never_collides.
  cbn [workspaces with_workspaces tabGroups tabs deletedItems ws_id
       testWorkspace renamed].
  rewrite insert_insert_eq.
  destruct (add tg_id _ _ _) as [sg|e]; [|done].
  cbn [workspaces with_tabGroups with_workspaces tabGroups tabs deletedItems].
  destruct (add tab_id _ _ _) as [st|e]; done.
Qed.

(** X27 (testDatabase). testDatabase resolves exactly when the three
    generated ids are not stored and no other group or tab holds position
    0 under the test workspace or the test group; the database is then
    left as it was found. *)
Theorem testDatabase_leaves_no_trace clock w g t db db' :
  testDatabase clock w g t db = (Resolved tt, db') ↔
  (workspaces db !! w = None
   ∧ tabGroups db !! g = None
   ∧ ¬ slot_taken_by_other_group db g (testGroup clock g w)
   ∧ tabs db !! t = None
   ∧ ¬ slot_taken_by_other_tab db t (testTab clock t g))
  ∧ db' = db.
Proof.
  rewrite testDatabase_steps.
  pose proof (group_collides_iff db (testGroup clock g w)) as Hgroup.
  pose proof (tab_collides_iff db (testTab clock t g)) as Htab.
  cbn [tg_id tab_id testGroup testTab] in Hgroup, Htab.
  assert (∀ sw sg st,
    sw = <[w := renamed (testWorkspace clock w)]> (workspaces db) →
    workspaces db !! w = None →
    sg = <[g := testGroup clock g w]> (tabGroups db) →
    tabGroups db !! g = None →
    st = <[t := testTab clock t g]> (tabs db) →
    tabs db !! t = None →
    {| workspaces := delete_key sw w; tabGroups := delete_key sg g;
       tabs := delete_key st t; deletedItems := deletedItems db |} = db)
    as Hclean.
  { intros sw sg st -> Hw -> Hg -> Ht. unfold delete_key.
    rewrite !delete_insert_eq, !delete_id by done. by destruct db. }
  split.
  - destruct (add ws_id _ _ _) as [sw|e] eqn:Hw; [|done].
    apply add_Success in Hw as (Hw & _ & _).
    cbn [ws_id testWorkspace] in Hw. cbv zeta.
    destruct (add tg_id _ _ _) as [sg|e] eqn:Hg; [|done].
    apply add_Success in Hg as (Hg & Hslot & ->).
    cbn [tg_id testGroup] in Hg.
    destruct (add tab_id _ _ _) as [st|e] eqn:Ht; [|done].
    apply add_Success in Ht as (Ht & Hslot' & ->).
    cbn [tab_id testTab] in Ht.
    intros [= <-]. cbn [workspaces with_workspaces].
    split; [|by apply (Hclean _ _ _ eq_refl Hw eq_refl Hg eq_refl Ht)].
    split; [done|]. split; [done|]. split; [by apply Hgroup|].
    split; [done|by apply Htab].
  - intros [(Hw & Hg & Hslot & Ht & Hslot') ->].
    apply Hgroup in Hslot. apply Htab in Hslot'.
    rewrite (proj2 (add_Success ws_id no_unique_index (workspaces db) _
                      (testWorkspace clock w))
               (conj Hw (conj (no_unique_index_never_collides _ _ _) eq_refl))).
    cbv zeta.
    rewrite (proj2 (add_Success tg_id workspaceId_position (tabGroups db) _
                      (testGroup clock g w))
               (conj Hg (conj Hslot eq_refl))).
    rewrite (proj2 (add_Success tab_id groupId_position (tabs db) _
                      (testTab clock t g))
               (conj Ht (conj Hslot' eq_refl))).
    f_equal. cbn [workspaces with_workspaces tg_id tab_id testGroup testTab].
    by apply (Hclean _ _ _ eq_refl Hw eq_refl Hg eq_refl Ht).
Qed.



(** ** Exact url and parent look-ups *)

Lemma prefix_same s : String.prefix s s = true.
Proof.
  induction s as [|c s IH]; [done|]. simpl.
  by destruct (Ascii.ascii_dec c c).
Qed.

Lemma includes_same s : includes s s = true.
Proof.
  destruct s as [|c s]; [done|].
  change (includes (String c s) (String c s))
    with (String.prefix (String c s) (String c s) || includes s (String c s)).
  by rewrite prefix_same.
Qed.

(** X29 (exact url). getTabsByUrl resolves with exactly the stored tabs
    whose url is the one asked, letter for letter, and each of them is
    also found by searchTabs with that url as the search term. *)
Theorem getTabsByUrl_within_search db url :
  ∃ same found,
    getTabsByUrl db url = Resolved same
    ∧ searchTabs db url None = Resolved found
    ∧ (∀ t, t ∈ same ↔ (∃ id, tabs db !! id = Some t) ∧ tab_url t = url)
    ∧ ∀ t, t ∈ same → t ∈ found.
Proof.
  eexists. eexists. split; [reflexivity|]. split; [reflexivity|].
  assert (∀ t, t ∈ js_or (index_getAll (λ t, VString (tab_url t)) (VString url)
                            (tabs db)) []
               ↔ (∃ id, tabs db !! id = Some t) ∧ tab_url t = url) as Hsame.
  { intros t. unfold js_or.
    assert (∀ l : list Tab, (if truthy l then l else []) = l) as -> by done.
    rewrite (elem_of_index_getAll tab_id groupId_position). simpl.
    split; [by intros (? & _ & [= ?])|by intros [? ->]]. }
  split; [exact Hsame|].
  intros t [[id Hid] Hurl]%Hsame. simpl.
  apply list_elem_of_filter. split.
  - unfold matches_search. rewrite Hurl, includes_same. apply orb_true_r.
  - apply elem_of_getAll. eauto.
Qed.

(** X30 (the trash of a parent). getDeletedItemsByParentId resolves with
    exactly the stored tombstones that carry the parentId asked; a
    tombstone without parentId is listed under no parentId. *)
Theorem getDeletedItemsByParentId_lists db parentId :
  ∃ items,
    getDeletedItemsByParentId db parentId = Resolved items
    ∧ (∀ item, item ∈ items ↔
         (∃ id, deletedItems db !! id = Some item)
         ∧ di_parentId item = Some parentId)
    ∧ ∀ item, di_parentId item = None → item ∉ items.
Proof.
  eexists. split; [reflexivity|].
  assert (∀ item,
    item ∈ js_or (index_getAll parentId_key (VString parentId) (deletedItems db)) []
    ↔ (∃ id, deletedItems db !! id = Some item)
      ∧ di_parentId item = Some parentId) as Hitems.
  { intros item. unfold js_or.
    assert (∀ l : list DeletedItem, (if truthy l then l else []) = l) as ->
      by done.
    rewrite (elem_of_index_getAll di_id no_unique_index). unfold parentId_key.
    destruct (di_parentId item) as [p|]; simpl.
    - split; [by intros (? & _ & [= ->])|by intros [? [= ->]]].
    - split; [by intros (_ & ? & _)|by intros [_ ?]]. }
  split; [exact Hitems|].
  intros item Hnone [_ Hsome]%Hitems. congruence.
Qed.
